(** * Aura Reads: the chunk-assembly engine and its validation boundary

    A shallow embedding of [chunk_script.py] and [chunk_analysis.py].

    Python [str] values are sequences of Unicode code points, Python [int]
    values are unbounded integers: a string is a [list N] of code points and
    an integer is a [Z]. *)

From Stdlib Require Import List ZArith NArith Lia Bool String Ascii.
From Stdlib Require Import DecimalString DecimalPos.
From Equations Require Import Equations.
From Equations.Prop Require Import Logic.
Import ListNotations.
Open Scope Z_scope.
Set Warnings "-register-all".

(** ** Python strings *)

Module PyStr.

Definition char := N.
Definition str := list char.

(** Literals of the development are written as Rocq strings. *)
Fixpoint of_string (s : string) : str :=
  match s with
  | EmptyString => []
  | String a r => N_of_ascii a :: of_string r
  end.

Definition nl : char := 10%N.

(** [str.isspace] on one code point (CPython's [_PyUnicode_IsWhitespace]);
    it is also what [\s] matches in a [str] pattern and what [str.strip()]
    and [str.split()] remove. *)
Definition isspace (c : char) : bool :=
  ((9 <=? c) && (c <=? 13) || (28 <=? c) && (c <=? 32)
   || (c =? 133) || (c =? 160) || (c =? 5760)
   || (8192 <=? c) && (c <=? 8202)
   || (c =? 8232) || (c =? 8233) || (c =? 8239) || (c =? 8287)
   || (c =? 12288))%N.

(** Prepend a character to the first piece of a split. *)
Definition cons_head (c : char) (l : list str) : list str :=
  match l with
  | [] => [[c]]
  | w :: ws => (c :: w) :: ws
  end.

(** [s.split()]: the maximal runs of non-whitespace characters. *)
Fixpoint split (s : str) : list str :=
  match s with
  | [] => []
  | c :: r =>
      if isspace c then split r
      else match r with
           | [] => [[c]]
           | d :: _ => if isspace d then [c] :: split r
                       else cons_head c (split r)
           end
  end.

Definition len {A} (l : list A) : Z := Z.of_nat (List.length l).

(** A Python value used as a condition: a string is true when non-empty. *)
Definition str_truthy (s : str) : bool :=
  match s with [] => false | _ :: _ => true end.

(** [s.lstrip()], [s.rstrip()], [s.strip()]. *)
Fixpoint lstrip (s : str) : str :=
  match s with
  | [] => []
  | c :: r => if isspace c then lstrip r else s
  end.

Definition rstrip (s : str) : str := rev (lstrip (rev s)).

Definition strip (s : str) : str := rstrip (lstrip s).

(** [sep.join(parts)]. *)
Fixpoint join (sep : str) (parts : list str) : str :=
  match parts with
  | [] => []
  | [p] => p
  | p :: rest => p ++ sep ++ join sep rest
  end.

(** [s.split("\n\n")]: cut at each occurrence of the blank-line separator,
    leftmost first. *)
Fixpoint split_blank (s : str) : list str :=
  match s with
  | [] => [[]]
  | c :: r =>
      match r with
      | d :: r' =>
          if ((c =? nl) && (d =? nl))%N then [] :: split_blank r'
          else cons_head c (split_blank r)
      | [] => [[c]]
      end
  end.

(** [s.startswith(prefix)], [s.endswith(suffix)]. *)
Fixpoint startswith (s prefix : str) : bool :=
  match prefix, s with
  | [], _ => true
  | a :: p', b :: s' => (a =? b)%N && startswith s' p'
  | _ :: _, [] => false
  end.

Definition endswith (s suffix : str) : bool :=
  startswith (rev s) (rev suffix).

End PyStr.

Import PyStr.

Definition blank_sep : str := [nl; nl].

(** ** chunk_script.py *)

Module ChunkScript.

Record ParagraphChunk := mkChunk {
  id : Z;
  content : str;
  word_count : Z
}.

(** *** get_target_chunk_size *)

Definition get_target_chunk_size (age : Z) : Z :=
  if age <=? 12 then 150
  else if age <=? 20 then 220
  else if age <=? 35 then 250
  else if age <=? 50 then 240
  else if age <=? 65 then 200
  else 180.

(** *** chunk_paragraphs *)

(** The local variables of the loop. *)
Record loop_state := mkLoop {
  chunks : list ParagraphChunk;
  current_chunk_content : list str;
  current_chunk_word_count : Z;
  chunk_id : Z
}.

Definition loop_init : loop_state := mkLoop [] [] 0 0.

(** One iteration of [for p in paragraphs]. *)
Definition loop_body (target_chunk_size : Z) (st : loop_state) (p : str)
  : loop_state :=
  let paragraph_word_count := len (split p) in
  match current_chunk_content st with
  | [] =>
      mkLoop (chunks st) (current_chunk_content st ++ [p])
             (current_chunk_word_count st + paragraph_word_count)
             (chunk_id st)
  | _ :: _ =>
      if current_chunk_word_count st <? target_chunk_size then
        mkLoop (chunks st) (current_chunk_content st ++ [p])
               (current_chunk_word_count st + paragraph_word_count)
               (chunk_id st)
      else
        let final_content := join blank_sep (current_chunk_content st) in
        mkLoop (chunks st ++ [mkChunk (chunk_id st) final_content
                                      (current_chunk_word_count st)])
               [p] paragraph_word_count (chunk_id st + 1)
  end.

(** What follows the loop: the open accumulator, if any, is closed. *)
Definition loop_exit (st : loop_state) : list ParagraphChunk :=
  match current_chunk_content st with
  | [] => chunks st
  | _ :: _ =>
      let final_content := join blank_sep (current_chunk_content st) in
      chunks st ++ [mkChunk (chunk_id st) final_content
                            (current_chunk_word_count st)]
  end.

Definition chunk_paragraphs (paragraphs : list str) (target_chunk_size : Z)
  : list ParagraphChunk :=
  loop_exit (fold_left (loop_body target_chunk_size) paragraphs loop_init).

(** *** split_into_paragraphs *)

(** The pattern [\s*\n] tried at the head of [s], as the backtracking
    matcher runs it: the star is greedy, so a whitespace character is first
    given to [\s*]; when the rest then fails, the matcher comes back and
    tries [\n] on it.  The result is the text after the match. *)
Fixpoint match_spaces_newline (s : str) : option str :=
  match s with
  | [] => None
  | c :: r =>
      if isspace c then
        match match_spaces_newline r with
        | Some rest => Some rest
        | None => if (c =? nl)%N then Some r else None
        end
      else if (c =? nl)%N then Some r else None
  end.

(** The pattern [\n\s*\n] tried at the head of [s]. *)
Definition match_separator (s : str) : option str :=
  match s with
  | [] => None
  | c :: r => if (c =? nl)%N then match_spaces_newline r else None
  end.

(** [re.split(r'\n\s*\n', text)]: the scan looks for the leftmost match,
    cuts there and goes on after the match; a match is never empty. *)
Equations? re_split (s : str) : list str by wf (List.length s) lt :=
  re_split [] := [[]];
  re_split (c :: r) with inspect (match_separator (c :: r)) => {
    | exist _ (Some rest) _ := [] :: re_split rest;
    | exist _ None _ := cons_head c (re_split r) }.
Proof.
  assert (shorter : forall t u, match_spaces_newline t = Some u ->
                                (List.length u < List.length t)%nat).
  { induction t as [|d t IH]; intros u Hu; simpl in Hu; [discriminate|].
    destruct (isspace d).
    - destruct (match_spaces_newline t) as [v|] eqn:Hv.
      + injection Hu as <-. specialize (IH v eq_refl). simpl. lia.
      + destruct (d =? nl)%N; [injection Hu as <-; simpl; lia|discriminate].
    - destruct (d =? nl)%N; [injection Hu as <-; simpl; lia|discriminate]. }
  simpl in e. destruct (c =? nl)%N; [|discriminate].
  apply shorter in e. simpl. lia.
Qed.

Definition split_into_paragraphs (text : str) : list str :=
  let paragraphs := re_split text in
  map strip (filter (fun p => str_truthy (strip p)) paragraphs).

(** *** get_next_output_path *)

(** [s.rfind(c)] for a one-character [c], [-1] when absent. *)
Fixpoint rfind_from (i : Z) (c : char) (s : str) : Z :=
  match s with
  | [] => -1
  | d :: r =>
      let j := rfind_from (i + 1) c r in
      if 0 <=? j then j else if (d =? c)%N then i else -1
  end.

Definition rfind (c : char) (s : str) : Z := rfind_from 0 c s.

(** The slice [s[lo:hi]] for [0 <= lo]. *)
Definition slice (s : str) (lo hi : Z) : str :=
  firstn (Z.to_nat (hi - lo)) (skipn (Z.to_nat lo) s).

Definition dot : char := 46%N.
Definition slash : char := 47%N.

(** [os.path.splitext(p)[0]] (posixpath): the extension starts at the last
    dot of the last path component, leading dots of that component apart. *)
Definition splitext_root (p : str) : str :=
  let sepIndex := rfind slash p in
  let dotIndex := rfind dot p in
  if sepIndex <? dotIndex then
    if forallb (fun d => (d =? dot)%N) (slice p (sepIndex + 1) dotIndex)
    then p
    else slice p 0 dotIndex
  else p.

Section OutputSequencer.

(** The builtin [int] on a string: [Some n], or [None] when it raises
    [ValueError]. *)
Variable py_int : str -> option Z.

(** One iteration of [for filename in os.listdir(book_output_dir)]. *)
Definition listing_body (existing_ids : list Z) (filename : str) : list Z :=
  if endswith filename (of_string ".json") then
    let file_id_str := splitext_root filename in
    match py_int file_id_str with
    | Some n => existing_ids ++ [n]
    | None => existing_ids
    end
  else existing_ids.

Definition existing_ids (listdir : list str) : list Z :=
  fold_left listing_body listdir [].

(** [max(l)] on a non-empty list. *)
Definition py_max (x : Z) (l : list Z) : Z := fold_left Z.max l x.

(** [next_id] of [get_next_output_path], for the listing of the book's
    output directory. *)
Definition next_id (listdir : list str) : Z :=
  match existing_ids listdir with
  | [] => 0
  | x :: l => py_max x l + 1
  end.

(** [str(n)] for an integer. *)
Definition str_of_int (n : Z) : str :=
  of_string (NilEmpty.string_of_int (Z.to_int n)).

(** [os.path.join(a, b)] (posixpath) for two components. *)
Definition path_join (a b : str) : str :=
  if startswith b [slash] then b
  else if orb (negb (str_truthy a)) (endswith a [slash]) then a ++ b
  else a ++ [slash] ++ b.

(** [get_next_output_path], given what [os.listdir] returns for the book's
    output directory, which [os.makedirs] has made sure exists. *)
Definition get_next_output_path (listdir : list str)
           (base_results_dir book_name : str) : str :=
  let book_output_dir := path_join base_results_dir book_name in
  path_join book_output_dir
            (str_of_int (next_id listdir) ++ of_string ".json").

End OutputSequencer.

(** A [py_int] for the examples: [int] on a string of ASCII characters, with
    blanks around, a sign, decimal digits, single underscores between
    digits. *)
Definition ascii_blank (c : char) : bool :=
  ((9 <=? c) && (c <=? 13) || (c =? 32))%N.

Fixpoint lstrip_blank (s : str) : str :=
  match s with
  | [] => []
  | c :: r => if ascii_blank c then lstrip_blank r else s
  end.

Fixpoint digits_value (acc : Z) (after_digit : bool) (s : str) : option Z :=
  match s with
  | [] => if after_digit then Some acc else None
  | c :: r =>
      if (c =? 95)%N then
        if after_digit then digits_value acc false r else None
      else if ((48 <=? c) && (c <=? 57))%N then
        digits_value (10 * acc + (Z.of_N c - 48)) true r
      else None
  end.

Definition int_ascii (s : str) : option Z :=
  let body := rev (lstrip_blank (rev (lstrip_blank s))) in
  match body with
  | [] => None
  | c :: r =>
      if (c =? 45)%N then option_map Z.opp (digits_value 0 false r)
      else if (c =? 43)%N then digits_value 0 false r
      else digits_value 0 false body
  end.

End ChunkScript.

(** ** chunk_analysis.py *)

Module ChunkAnalysis.

(** What [json.load] and [json.loads] return: [None], [bool], [int],
    [float], [str], [list] and [dict] with string keys.  A decoded [dict]
    binds each key once and keeps the order of the text.  A float is kept as
    [mantissa * 2 ^ exponent]; nothing here computes with it, only its being
    zero is looked at. *)
Inductive json :=
| JNone
| JBool (b : bool)
| JInt (n : Z)
| JFloat (mantissa exponent : Z)
| JStr (s : str)
| JList (l : list json)
| JDict (d : list (str * json)).

Definition str_eqb (a b : str) : bool :=
  if list_eq_dec N.eq_dec a b then true else false.

(** [d.get(key)], [None] when the key is absent. *)
Fixpoint dict_get (d : list (str * json)) (key : str) : option json :=
  match d with
  | [] => None
  | (k, v) :: rest => if str_eqb k key then Some v else dict_get rest key
  end.

(** A value used as a condition ([if not x]). *)
Definition truthy (x : json) : bool :=
  match x with
  | JNone => false
  | JBool b => b
  | JInt n => negb (n =? 0)
  | JFloat m _ => negb (m =? 0)
  | JStr s => str_truthy s
  | JList l => match l with [] => false | _ :: _ => true end
  | JDict d => match d with [] => false | _ :: _ => true end
  end.

(** *** Exceptions and printed lines *)

(** One line of a pydantic [ValidationError]: the field and what is wrong
    with it. *)
Inductive field_error :=
| Missing (field : str)
| WrongType (field : str).

Inductive exn :=
| JSONDecodeError
| TypeError
| AttributeError
| ValidationError (errors : list field_error)
| ServiceError.

Inductive result (A : Type) :=
| Return (a : A)
| Raise (e : exn).
Arguments Return {A} a.
Arguments Raise {A} e.

Definition bind {A B} (m : result A) (k : A -> result B) : result B :=
  match m with
  | Return a => k a
  | Raise e => Raise e
  end.

Notation "x <- m ;; k" := (bind m (fun x => k))
  (at level 61, m at next level, right associativity).

(** What the script prints. *)
Inductive line :=
| MsgInputNotFound
| MsgFormatMismatch
| MsgError (e : exn)
| MsgSending
| MsgReceived
| MsgServiceError (e : exn)
| MsgNoParagraphs
| MsgNoAnalysis
| MsgSaved.

(** *** The models *)

Record ParagraphChunk := mkParagraph {
  id : Z;
  content : str
}.

(** pydantic's validation of one field value against its annotation:
    the validated value, or [None] when the value is refused. *)
Class FieldValidators := {
  validate_int : json -> option Z;
  validate_str : json -> option str
}.

Section Models.

Context {V : FieldValidators}.

Definition field {A} (validate : json -> option A) (name : str)
           (kwargs : list (str * json)) : A + field_error :=
  match dict_get kwargs name with
  | None => inr (Missing name)
  | Some v => match validate v with
              | Some a => inl a
              | None => inr (WrongType name)
              end
  end.

Definition errors_of {A} (f : A + field_error) : list field_error :=
  match f with inl _ => [] | inr e => [e] end.

(** The model called with the keyword arguments [kwargs]: the declared
    fields are looked up by name, every failing field is reported, other
    keywords are not looked at. *)
Definition ParagraphChunk_init (kwargs : list (str * json))
  : result ParagraphChunk :=
  let f_id := field validate_int (of_string "id") kwargs in
  let f_content := field validate_str (of_string "content") kwargs in
  match f_id, f_content with
  | inl i, inl c => Return (mkParagraph i c)
  | _, _ => Raise (ValidationError (errors_of f_id ++ errors_of f_content))
  end.

(** The model called with [item] unpacked by the double star, which wants
    a mapping. *)
Definition construct (item : json) : result ParagraphChunk :=
  match item with
  | JDict kwargs => ParagraphChunk_init kwargs
  | _ => Raise TypeError
  end.

(** [iter(data)]: the elements of a list, the keys of a dict, the
    characters of a string; the other values are not iterable. *)
Definition py_iter (data : json) : result (list json) :=
  match data with
  | JList l => Return l
  | JDict d => Return (map (fun kv => JStr (fst kv)) d)
  | JStr s => Return (map (fun c => JStr [c]) s)
  | _ => Raise TypeError
  end.

(** The list comprehension over [items]: it stops at the first
    exception. *)
Fixpoint comprehension (items : list json) : result (list ParagraphChunk) :=
  match items with
  | [] => Return []
  | item :: rest =>
      p <- construct item ;;
      ps <- comprehension rest ;;
      Return (p :: ps)
  end.

(** *** load_chunks_from_file *)

(** The input file as the function sees it: absent, or present with text
    that [json.load] refuses or decodes. *)
Inductive input_file :=
| Absent
| Undecodable
| Decodes (data : json).

(** The printed lines and the outcome. *)
Definition load_chunks_from_file (f : input_file)
  : list line * result (list ParagraphChunk) :=
  match f with
  | Absent => ([MsgInputNotFound], Return [])
  | Undecodable => ([], Raise JSONDecodeError)
  | Decodes data =>
      match (items <- py_iter data ;; comprehension items) with
      | Raise (ValidationError e) =>
          ([MsgFormatMismatch; MsgError (ValidationError e)], Return [])
      | outcome => ([], outcome)
      end
  end.

End Models.

(** *** analyze_paragraphs, from the call to the service on

    The models [ParagraphChunk_Response] and [AnalysisResponse] of the
    script, whose [mood], [sentiment] and [type] are declared [str], go to
    the service as the schema asked of its reply; the reply itself is not
    passed through them. *)

(** What [model.generate_content] does: it raises, or it returns a response
    whose text [json.loads] refuses or decodes. *)
Inductive service_reply :=
| CallRaises
| TextUndecodable
| TextDecodes (result_data : json).

(** The body of the [try]. *)
Definition analyze_try (reply : service_reply) : list line * result json :=
  match reply with
  | CallRaises => ([], Raise ServiceError)
  | TextUndecodable => ([MsgReceived], Raise JSONDecodeError)
  | TextDecodes result_data =>
      ([MsgReceived],
       match result_data with
       | JDict d =>
           Return match dict_get d (of_string "analysis_results") with
                  | Some v => v
                  | None => JList []
                  end
       | _ => Raise AttributeError
       end)
  end.

Definition analyze_paragraphs (reply : service_reply) : list line * json :=
  let (out, r) := analyze_try reply in
  match r with
  | Return v => (MsgSending :: out, v)
  | Raise e => (MsgSending :: out ++ [MsgServiceError e], JList [])
  end.

(** *** The closed enumerations of the prompt *)







(** Validators for examples: a JSON integer for [int], a JSON string for
    [str], nothing else. *)
Definition exact_validators : FieldValidators := {|
  validate_int := fun v => match v with JInt n => Some n | _ => None end;
  validate_str := fun v => match v with JStr s => Some s | _ => None end
|}.

End ChunkAnalysis.

(** ** What the scripts meet outside themselves *)

Module Outside.

(** An exception that nobody catches: one that [load_chunks_from_file]
    raises, an [OSError] of [os.makedirs],
    [os.listdir] or [open], a [UnicodeDecodeError] of a read, the
    [ValueError] that [chunk_analysis.py] raises when it is loaded without
    its key, or what the analysis library raises while it is set up. *)
Inductive crash :=
| Uncaught (e : ChunkAnalysis.exn)
| OSError
| UnicodeDecodeError
| ValueError
| LibraryError.

(** How a run of a script ends: [sys.exit] with a status, the end of the
    script, or an exception nobody catches.  [print] is taken to return. *)
Inductive ending :=
| Exits (status : Z)
| Ends
| Dies (c : crash).

(** The exit status of the process: an exception nobody catches ends the
    interpreter with status 1. *)
Definition exit_status (e : ending) : Z :=
  match e with
  | Exits status => status
  | Ends => 0
  | Dies _ => 1
  end.

(** Does [os.makedirs(path, exist_ok=True)] return?  It raises on the empty
    path whatever the disk; on another path [dir_ok] tells whether the disk
    lets the directory be made. *)
Definition os_makedirs (dir_ok : bool) (path : str) : bool :=
  str_truthy path && dir_ok.

End Outside.

(** ** chunk_script.py: reading, saving, processing a book *)

Module ChunkScriptIO.

Import ChunkScript Outside.

(** What the script prints. *)
Inductive message :=
| MsgStarting
| MsgTargetSize (target_chunk_size : Z)
| MsgBookNotFound
| MsgBookReadError
| MsgStopped
| MsgFoundParagraphs (n : Z)
| MsgSavedChunks (n : Z)
| MsgSaveError
| MsgFinished
| MsgUsage
| MsgBadAge.

(** What the script does to the file system: a directory made or found
    there by [os.makedirs], a file written in full. *)
Inductive effect :=
| Makedirs (path : str)
| WriteJson (path : str) (data : ChunkAnalysis.json).

(** The book file as [read_book_text] sees it: not there, there but the
    read fails, or read in full. *)
Inductive book_file :=
| BookAbsent
| BookReadFails
| BookText (text : str).

Definition read_book_text (f : book_file) : list message * str :=
  match f with
  | BookAbsent => ([MsgBookNotFound], [])
  | BookReadFails => ([MsgBookReadError], [])
  | BookText text => ([], text)
  end.

(** [chunk.model_dump()]: the fields in the order of their declaration. *)
Definition model_dump (c : ParagraphChunk) : ChunkAnalysis.json :=
  ChunkAnalysis.JDict
    [(of_string "id", ChunkAnalysis.JInt (id c));
     (of_string "content", ChunkAnalysis.JStr (content c));
     (of_string "word_count", ChunkAnalysis.JInt (word_count c))].

(** [s.rstrip('/')]. *)
Fixpoint lstrip_slash (s : str) : str :=
  match s with
  | [] => []
  | c :: r => if (c =? slash)%N then lstrip_slash r else s
  end.

Definition rstrip_slash (s : str) : str := rev (lstrip_slash (rev s)).

(** [os.path.dirname(p)] (posixpath). *)
Definition dirname (p : str) : str :=
  let i := rfind slash p + 1 in
  let head := slice p 0 i in
  if str_truthy head && negb (forallb (fun c => (c =? slash)%N) head)
  then rstrip_slash head
  else head.

(** [save_chunks_to_json].  [os.makedirs] comes before the [try]: when it
    raises, the exception leaves the function and nothing is written.  The
    opening and writing of the file are inside the [try]; [write_ok] tells
    whether they go through, and what a write that fails leaves at the path
    is not modelled. *)
Definition save_chunks_to_json (dir_ok write_ok : bool)
           (chunks : list ParagraphChunk) (output_path : str)
  : list effect * list message * option crash :=
  let chunks_as_dict := map model_dump chunks in
  let output_dir := dirname output_path in
  if os_makedirs dir_ok output_dir then
    if write_ok then
      ([Makedirs output_dir;
        WriteJson output_path (ChunkAnalysis.JList chunks_as_dict)],
       [MsgSavedChunks (len chunks)], None)
    else ([Makedirs output_dir], [MsgSaveError], None)
  else ([], [], Some OSError).

(** What [os.makedirs] and [os.listdir] do on the output directory of the
    book in [get_next_output_path], where nothing catches what they
    raise. *)
Inductive dir_state :=
| MakedirsRaises
| ListdirRaises
| Listing (listdir : list str).

Section ProcessBook.

Variable py_int : str -> option Z.

(** The directory of the script. *)
Variable script_dir : str.

(** [process_book], given what the output directory of the book does, the
    book file, and whether the directory of the output file can be made and
    the file written: the effects, the printed lines and the ending. *)
Definition process_book (dir : dir_state) (book : book_file)
           (save_dir_ok write_ok : bool) (book_filename : str)
           (target_chunk_size : Z)
  : list effect * list message * ending :=
  let books_dir := path_join script_dir (of_string "books") in
  let results_dir := path_join script_dir (of_string "chunked_results") in
  let input_file_path := path_join books_dir book_filename in
  let book_name := splitext_root book_filename in
  let book_output_dir := path_join results_dir book_name in
  match dir with
  | MakedirsRaises => ([], [], Dies OSError)
  | ListdirRaises => ([Makedirs book_output_dir], [], Dies OSError)
  | Listing listdir =>
      let output_file_path :=
        get_next_output_path py_int listdir results_dir book_name in
      let made := [Makedirs book_output_dir] in
      let started := [MsgStarting; MsgTargetSize target_chunk_size] in
      let (read_out, book_text) := read_book_text book in
      if negb (str_truthy book_text) then
        (made, started ++ read_out ++ [MsgStopped], Ends)
      else
        let paragraphs := split_into_paragraphs book_text in
        let chunks := chunk_paragraphs paragraphs target_chunk_size in
        let '(saved, save_out, raised) :=
          save_chunks_to_json save_dir_ok write_ok chunks output_file_path in
        let printed :=
          started ++ read_out ++ [MsgFoundParagraphs (len paragraphs)]
          ++ save_out in
        match raised with
        | Some c => (made ++ saved, printed, Dies c)
        | None => (made ++ saved, printed ++ [MsgFinished], Ends)
        end
  end.

(** The script run with the command line [argv]. *)
Definition script_main (argv : list str) (dir : dir_state)
           (book : book_file) (save_dir_ok write_ok : bool)
  : list effect * list message * ending :=
  match argv with
  | [_; file_to_process; age] =>
      match py_int age with
      | Some user_age =>
          let TARGET_CHUNK_SIZE_WORDS := get_target_chunk_size user_age in
          process_book dir book save_dir_ok write_ok file_to_process
                       TARGET_CHUNK_SIZE_WORDS
      | None => ([], [MsgBadAge], Exits 1)
      end
  | _ => ([], [MsgUsage], Exits 1)
  end.

End ProcessBook.

End ChunkScriptIO.

(** ** chunk_analysis.py: saving, and the whole script *)

Module AnalysisMain.

Import ChunkAnalysis Outside.

(** What a run prints: the lines of [main] and [save_analysis_result]
    themselves and those of the functions modelled above. *)
Inductive report :=
| Usage
| Starting
| Printed (l : line)
| LibraryMissing
| SaveFailed
| Finished.

(** [save_analysis_result]: the lines printed, the files written in full,
    and the exception that leaves the function, if any.  [os.makedirs]
    comes before the [try]; the opening and writing of the file are inside
    it, and [write_ok] tells whether they go through; what a write that
    fails leaves at the path is not modelled. *)
Definition save_analysis_result (dir_ok write_ok : bool)
           (result_list : json) (output_path : str)
  : list report * list (str * json) * option crash :=
  let output_dir := ChunkScriptIO.dirname output_path in
  if os_makedirs dir_ok output_dir then
    if write_ok then
      ([Printed MsgSaved], [(output_path, result_list)], None)
    else ([SaveFailed], [], None)
  else ([], [], Some OSError).

(** [main], from step 2 on: the analysis, and the save if the analysis
    returned something. *)
Definition main_analysis (dir_ok write_ok : bool) (reply : service_reply)
           (output_path : str)
  : list report * list (str * json) * option crash :=
  let (out, analysis_result_list) := analyze_paragraphs reply in
  if negb (truthy analysis_result_list) then
    (map Printed (out ++ [MsgNoAnalysis]), [], None)
  else
    let '(save_out, files, raised) :=
      save_analysis_result dir_ok write_ok analysis_result_list output_path in
    match raised with
    | Some c => (map Printed out ++ save_out, files, Some c)
    | None => (map Printed out ++ save_out ++ [Finished], files, None)
    end.

(** [os.path.join] on a first component and more. *)
Definition path_join_all (first : str) (more : list str) : str :=
  fold_left ChunkScript.path_join more first.

(** The analysis library: not installed, raising while it is configured
    and the model object made, which is before the [try] of
    [analyze_paragraphs], or answering. *)
Inductive service :=
| NotInstalled
| SetupRaises
| Replies (reply : service_reply).

(** [not API_KEY], for what [os.getenv] gives: [None] or a string. *)
Definition key_missing (api_key : option str) : bool :=
  match api_key with
  | Some key => negb (str_truthy key)
  | None => true
  end.

(** The input file at its path: [os.path.exists] finds it but [open]
    refuses it, its bytes are not UTF-8, or it is in one of the states that
    [load_chunks_from_file] tells apart.  Neither [open] nor the read is
    inside a [try]. *)
Inductive input :=
| OpenRaises
| NotUtf8
| Input (f : input_file).

Section Main.

Context {V : FieldValidators}.

Variable script_dir : str.

Definition input_file_path (book_name file_number : str) : str :=
  path_join_all script_dir
    [of_string "results"; book_name; file_number ++ of_string ".json"].

Definition output_file_path (book_name file_number : str) : str :=
  path_join_all script_dir
    [of_string "analysis_results"; book_name;
     file_number ++ of_string ".json"].

(** [main] with the command line [argv], the input file as it is found at
    its path, the service, and whether the directory of the output can be
    made and the output written: the printed lines, the files written and
    the ending. *)
Definition main (argv : list str) (i : input) (s : service)
           (dir_ok write_ok : bool)
  : list report * list (str * json) * ending :=
  match argv with
  | [_; book_name; file_number] =>
      match i with
      | OpenRaises => ([Starting], [], Dies OSError)
      | NotUtf8 => ([Starting], [], Dies UnicodeDecodeError)
      | Input f =>
          let (out, loaded) := load_chunks_from_file f in
          match loaded with
          | Raise e => (Starting :: map Printed out, [], Dies (Uncaught e))
          | Return [] =>
              (Starting :: map Printed out ++ [Printed MsgNoParagraphs], [],
               Ends)
          | Return (_ :: _) =>
              match s with
              | NotInstalled =>
                  (Starting :: map Printed out ++ [LibraryMissing], [],
                   Exits 1)
              | SetupRaises =>
                  (Starting :: map Printed out, [], Dies LibraryError)
              | Replies reply =>
                  let '(out', files, raised) :=
                    main_analysis dir_ok write_ok reply
                      (output_file_path book_name file_number) in
                  (Starting :: map Printed out ++ out', files,
                   match raised with
                   | Some c => Dies c
                   | None => Ends
                   end)
              end
          end
      end
  | _ => ([Usage], [], Exits 1)
  end.

(** The script as a whole, its imports being there: the module raises
    [ValueError] when it is loaded without the key in the environment,
    before [main] is called. *)
Definition script (api_key : option str) (argv : list str) (i : input)
           (s : service) (dir_ok write_ok : bool)
  : list report * list (str * json) * ending :=
  if key_missing api_key then ([], [], Dies ValueError)
  else main argv i s dir_ok write_ok.

End Main.

End AnalysisMain.

(** ** chunk_analysis.py: the prompt *)

Module Prompt.

Import ChunkAnalysis.

Definition quote : char := 34%N.

(** The separator of the join, a newline and a tab. *)
Definition prompt_sep : str := [nl; 9%N].

(** The f-string of one paragraph. *)
Definition paragraph_line (p : ParagraphChunk) : str :=
  of_string "[Paragraph with id=" ++ ChunkScript.str_of_int (id p)
  ++ of_string "]: " ++ [quote] ++ content p ++ [quote].

Definition paragraphs_to_string (paragraphs : list ParagraphChunk) : str :=
  join prompt_sep (map paragraph_line paragraphs).

End Prompt.

(** ** Vocabulary of the statements *)

Module Assembly.

Import ChunkScript.

(** [len(p.split())], the word count of a paragraph. *)
Definition paragraph_words (p : str) : Z := len (split p).

(** The whitespace-delimited token count of a group of paragraphs. *)
Definition group_words (g : list str) : Z :=
  fold_right (fun p acc => paragraph_words p + acc) 0 g.

(** The chunk made of the group [g] under the identifier [i]. *)
Definition chunk_of (i : Z) (g : list str) : ParagraphChunk :=
  mkChunk i (join blank_sep g) (group_words g).

Fixpoint chunks_from (i : Z) (gs : list (list str)) : list ParagraphChunk :=
  match gs with
  | [] => []
  | g :: rest => chunk_of i g :: chunks_from (i + 1) rest
  end.

(** The constituent paragraphs of the chunks: the groups the greedy pass
    forms from the open group [current] and the paragraphs still to come. *)
Fixpoint groups_from (target : Z) (current : list str) (paragraphs : list str)
  : list (list str) :=
  match paragraphs with
  | [] => match current with [] => [] | _ :: _ => [current] end
  | p :: rest =>
      match current with
      | [] => groups_from target [p] rest
      | _ :: _ =>
          if group_words current <? target
          then groups_from target (current ++ [p]) rest
          else current :: groups_from target [p] rest
      end
  end.

Definition chunk_groups (paragraphs : list str) (target : Z)
  : list (list str) :=
  groups_from target [] paragraphs.

(** [P] holds of every element but possibly the last. *)
Fixpoint all_but_last {A} (P : A -> Prop) (l : list A) : Prop :=
  match l with
  | [] => True
  | x :: rest => match rest with
                 | [] => True
                 | _ :: _ => P x /\ all_but_last P rest
                 end
  end.

(** A paragraph of [n] one-letter words. *)
Fixpoint words_paragraph (n : nat) : str :=
  match n with
  | O => []
  | S O => [119%N]
  | S m => 119%N :: 32%N :: words_paragraph m
  end.

End Assembly.

Module Segmentation.

(** A gap: nothing but whitespace. *)
Definition is_gap (g : str) : bool := forallb isspace g.

(** The number of newlines of a string. *)
Definition newlines (g : str) : nat :=
  List.length (filter (fun c => (c =? nl)%N) g).

(** The text read as gaps and paragraphs in turn: a gap, then for each
    paragraph the paragraph and a gap.  The gap before a paragraph holds at
    least [need] newlines; between two paragraphs that is two newlines with
    whitespace only between them, which is a run of blank lines. *)
Fixpoint laid_out (need : nat) (text : str) (paragraphs : list str) : Prop :=
  match paragraphs with
  | [] => is_gap text = true
  | p :: rest =>
      exists g tail,
        text = g ++ p ++ tail /\ is_gap g = true /\ (need <= newlines g)%nat
        /\ laid_out 2 tail rest
  end.

(** A blank line inside [p]: two newlines of [p] with only whitespace
    between them. *)
Definition blank_line_inside (p : str) : Prop :=
  exists a w b, p = a ++ nl :: w ++ nl :: b /\ is_gap w = true.

(** A paragraph as the segmenter is to return it: not empty, trimmed, no
    blank line inside. *)
Definition well_formed (p : str) : Prop :=
  p <> [] /\ strip p = p /\ ~ blank_line_inside p.

(** The text cut into pieces at breaks: gaps that hold two newlines. *)
Inductive cut_into : str -> list str -> Prop :=
| cut_last q : cut_into q [q]
| cut_more q m rest qs :
    is_gap m = true -> (2 <= newlines m)%nat -> cut_into rest qs ->
    cut_into (q ++ m ++ rest) (q :: qs).

(** A paragraph that the join can be undone on: no two newlines in a row
    and no newline at its end. *)
Definition separable (p : str) : Prop :=
  (forall a b, p <> a ++ nl :: nl :: b) /\ (forall a, p <> a ++ [nl]).

(** The pieces that stay: trimmed, the empty ones dropped. *)
Definition kept (pieces : list str) : list str :=
  map strip (filter (fun p => str_truthy (strip p)) pieces).

End Segmentation.

Module Buckets.

(** The bucket table of the specification, as data: inclusive upper bounds
    with their values, read top-down, and the value past the last bound. *)
Definition bucket_table : list (Z * Z) :=
  [(12, 150); (20, 220); (35, 250); (50, 240); (65, 200)].

Definition past_last_bucket : Z := 180.

Fixpoint resolve (table : list (Z * Z)) (age : Z) : Z :=
  match table with
  | [] => past_last_bucket
  | (upper, value) :: rest => if age <=? upper then value else resolve rest age
  end.

End Buckets.

Module Listing.

Import ChunkScript.

(** A file name that the listing loop takes the identifier [n] from, for
    the builtin [py_int]. *)
Definition numbered (py_int : str -> option Z) (filename : str) (n : Z)
  : Prop :=
  endswith filename (of_string ".json") = true
  /\ py_int (splitext_root filename) = Some n.

End Listing.

Module Batches.

Import ChunkAnalysis.

(** Does a printed line report the field error [fe]? *)
Definition field_error_eqb (a b : field_error) : bool :=
  match a, b with
  | Missing f, Missing g => str_eqb f g
  | WrongType f, WrongType g => str_eqb f g
  | _, _ => false
  end.

Definition reports (fe : field_error) (l : line) : bool :=
  match l with
  | MsgError (ValidationError errors) => existsb (field_error_eqb fe) errors
  | _ => false
  end.

(** The batch of the specification's fail-closed example. *)
Definition one_good_one_bad : list json :=
  [JDict [(of_string "id", JInt 1); (of_string "content", JStr (of_string "x"))];
   JDict [(of_string "id", JStr (of_string "bad"))]].

(** A batch with two failing elements. *)
Definition two_bad : list json :=
  [JDict [(of_string "content", JStr (of_string "x"))];
   JDict [(of_string "id", JInt 1)]].



End Batches.

Module Sizes.

Import ChunkScript Assembly.

(** The sum of a list of integers. *)
Definition total (l : list Z) : Z := fold_right Z.add 0 l.

(** What stays of a group without its last paragraph is below the target,
    when anything stays. *)
Definition closes_late (target : Z) (g : list str) : Prop :=
  forall init last,
    g = init ++ [last] -> init <> [] -> group_words init < target.

End Sizes.

Module Stages.

Import ChunkAnalysis.

(** Validators that take a JSON integer for an [int] field and a JSON
    string for a [str] field as they are, which pydantic does; what they do
    with other values is left open. *)
Definition takes_exact_values (V : FieldValidators) : Prop :=
  (forall n, validate_int (JInt n) = Some n)
  /\ (forall s, validate_str (JStr s) = Some s).

(** The record the analysis stage reads from a chunk of the chunking
    stage. *)
Definition record_of (c : ChunkScript.ParagraphChunk) : ParagraphChunk :=
  mkParagraph (ChunkScript.id c) (ChunkScript.content c).

(** One paragraph whose content holds the closing quote, the separator and
    the opening of the line of [q]. *)
Definition forged (p q : ParagraphChunk) : ParagraphChunk :=
  mkParagraph (id p)
    (content p ++ [Prompt.quote] ++ Prompt.prompt_sep
     ++ of_string "[Paragraph with id=" ++ ChunkScript.str_of_int (id q)
     ++ of_string "]: " ++ [Prompt.quote] ++ content q).

(** The output directory of a book, for the directory of the script. *)
Definition book_output_dir (script_dir book_filename : str) : str :=
  ChunkScript.path_join
    (ChunkScript.path_join script_dir (of_string "chunked_results"))
    (ChunkScript.splitext_root book_filename).

(** A command line that the chunking script refuses: not two arguments, or
    an age that [int] does not take. *)
Definition bad_command_line (py_int : str -> option Z) (argv : list str)
  : Prop :=
  List.length argv <> 3%nat
  \/ exists age, nth_error argv 2 = Some age /\ py_int age = None.

End Stages.

(** ** The chunk assembler *)

Module AssemblyFacts.

Import ChunkScript Assembly.

Lemma group_words_app g h : group_words (g ++ h) = group_words g + group_words h.
Proof.
  induction g as [|p g IH]; simpl; [reflexivity|].
  rewrite IH. lia.
Qed.

Lemma group_words_nonneg g : 0 <= group_words g.
Proof.
  induction g as [|p g IH]; simpl; [lia|].
  unfold paragraph_words, len. lia.
Qed.

(** The loop, started in any state whose running count is that of its open
    group, ends with the chunks it had, followed by the chunks of the groups
    still to be formed. *)
Lemma loop_groups target paragraphs :
  forall st,
    current_chunk_word_count st = group_words (current_chunk_content st) ->
    loop_exit (fold_left (loop_body target) paragraphs st)
    = chunks st ++ chunks_from (chunk_id st)
                     (groups_from target (current_chunk_content st) paragraphs).
Proof.
  induction paragraphs as [|p rest IH]; intros [cs cur cnt i] Hcnt;
    simpl in Hcnt; subst cnt.
  - unfold loop_exit; simpl. destruct cur; simpl.
    + now rewrite app_nil_r.
    + reflexivity.
  - simpl fold_left. unfold loop_body at 2. simpl.
    destruct cur as [|q cur].
    + rewrite IH; simpl; [reflexivity|].
      unfold paragraph_words. lia.
    + destruct (group_words (q :: cur) <? target) eqn:Hlt.
      * rewrite IH; simpl; [reflexivity|].
        change (paragraph_words q + group_words cur)
          with (group_words (q :: cur)).
        change (q :: cur ++ [p]) with ((q :: cur) ++ [p]).
        rewrite group_words_app. simpl. unfold paragraph_words. lia.
      * rewrite IH; simpl; [|unfold paragraph_words; lia].
        rewrite <- app_assoc. reflexivity.
Qed.

Lemma chunk_paragraphs_groups paragraphs target :
  chunk_paragraphs paragraphs target
  = chunks_from 0 (chunk_groups paragraphs target).
Proof.
  unfold chunk_paragraphs, chunk_groups.
  rewrite loop_groups; reflexivity.
Qed.

Lemma groups_from_concat target paragraphs :
  forall current,
    List.concat (groups_from target current paragraphs) = current ++ paragraphs.
Proof.
  induction paragraphs as [|p rest IH]; intros [|q cur]; simpl.
  - reflexivity.
  - now rewrite !app_nil_r.
  - apply IH.
  - destruct (_ <? _).
    + rewrite IH. simpl. now rewrite <- app_assoc.
    + simpl. rewrite IH. reflexivity.
Qed.

Lemma groups_from_nonempty target paragraphs :
  forall current,
    Forall (fun g => g <> []) (groups_from target current paragraphs).
Proof.
  induction paragraphs as [|p rest IH]; intros [|q cur]; simpl.
  - constructor.
  - constructor; [discriminate|constructor].
  - apply IH.
  - destruct (_ <? _).
    + apply IH.
    + constructor; [discriminate|apply IH].
Qed.

(** A group that the pass goes on from is never lost: with an open group or
    a paragraph to come there is at least one group. *)
Lemma groups_from_not_nil target paragraphs :
  forall current,
    current <> [] \/ paragraphs <> [] ->
    groups_from target current paragraphs <> [].
Proof.
  induction paragraphs as [|p rest IH]; intros [|q cur] H; simpl.
  - destruct H; congruence.
  - discriminate.
  - apply IH. left. discriminate.
  - destruct (_ <? _).
    + apply IH. left. discriminate.
    + discriminate.
Qed.

Lemma groups_from_closed target paragraphs :
  forall current,
    all_but_last (fun g => target <= group_words g)
                 (groups_from target current paragraphs).
Proof.
  induction paragraphs as [|p rest IH]; intros [|q cur].
  - exact I.
  - exact I.
  - apply IH.
  - cbn [groups_from]. destruct (group_words (q :: cur) <? target) eqn:Hlt.
    + apply IH.
    + assert (Hne : groups_from target [p] rest <> [])
        by (apply groups_from_not_nil; left; discriminate).
      specialize (IH [p]).
      destruct (groups_from target [p] rest) as [|g gs]; [congruence|].
      split; [apply Z.ltb_ge, Hlt|exact IH].
Qed.

Lemma chunks_from_length i gs : List.length (chunks_from i gs) = List.length gs.
Proof.
  revert i; induction gs as [|g gs IH]; intros i; simpl; congruence.
Qed.

Lemma chunks_from_ids gs :
  forall i, map id (chunks_from i gs)
            = map (fun k => i + Z.of_nat k) (seq 0 (List.length gs)).
Proof.
  induction gs as [|g gs IH]; intros i; simpl; [reflexivity|].
  f_equal; [lia|].
  rewrite IH, <- seq_shift, map_map.
  apply map_ext. intros k. lia.
Qed.

Lemma chunks_from_word_counts gs :
  forall i, map word_count (chunks_from i gs) = map group_words gs.
Proof.
  induction gs as [|g gs IH]; intros i; simpl; [reflexivity|].
  now rewrite IH.
Qed.

Lemma chunks_from_contents gs :
  forall i, map content (chunks_from i gs) = map (join blank_sep) gs.
Proof.
  induction gs as [|g gs IH]; intros i; simpl; [reflexivity|].
  now rewrite IH.
Qed.

Lemma chunks_from_all_but_last (P : Z -> Prop) gs :
  forall i,
    all_but_last (fun g => P (group_words g)) gs ->
    all_but_last (fun c => P (word_count c)) (chunks_from i gs).
Proof.
  induction gs as [|g gs IH]; intros i H; [exact I|].
  simpl in *. destruct gs as [|h gs]; [exact I|].
  destruct H as [Hg Hrest]. split; [exact Hg|].
  apply (IH (i + 1) Hrest).
Qed.

Lemma all_but_last_nth {A} (P : A -> Prop) l :
  all_but_last P l ->
  forall k x, nth_error l k = Some x -> (S k < List.length l)%nat -> P x.
Proof.
  induction l as [|a l IH]; intros H k x Hk Hlen; [destruct k; discriminate|].
  simpl in H. destruct l as [|b l]; [simpl in Hlen; lia|].
  destruct H as [Ha Hrest]. destruct k as [|k].
  - injection Hk as <-. exact Ha.
  - apply (IH Hrest k x Hk). simpl in *. lia.
Qed.

End AssemblyFacts.

Module AssemblerProperties.

Import ChunkScript Assembly AssemblyFacts.

(** C2, as amended.  Three paragraphs of 100 words each and a target of 250
    give one chunk, not two: the running count is 100 and then 200 when the
    second and the third paragraph arrive, both below 250, so both are
    appended; the only chunk has id 0, the three paragraphs joined by blank
    lines as content and a word count of 300. *)
Theorem three_hundred_words_one_chunk (p1 p2 p3 : str) :
  paragraph_words p1 = 100 ->
  paragraph_words p2 = 100 ->
  paragraph_words p3 = 100 ->
  chunk_paragraphs [p1; p2; p3] 250
  = [mkChunk 0 (p1 ++ blank_sep ++ p2 ++ blank_sep ++ p3) 300].
Proof.
  intros H1 H2 H3.
  rewrite chunk_paragraphs_groups. unfold chunk_groups.
  cbn [groups_from app].
  assert (E1 : group_words [p1] = 100) by (cbn; lia).
  assert (E2 : group_words [p1; p2] = 200) by (cbn; lia).
  assert (E3 : group_words [p1; p2; p3] = 300) by (cbn; lia).
  rewrite E1, E2. cbn [Z.ltb Z.compare Pos.compare Pos.compare_cont].
  cbn [chunks_from]. unfold chunk_of. rewrite E3. reflexivity.
Qed.

Lemma three_hundred_words_one_chunk_witness :
  chunk_paragraphs
    [words_paragraph 100; words_paragraph 100; words_paragraph 100] 250
  = [mkChunk 0 (words_paragraph 100 ++ blank_sep ++ words_paragraph 100
                ++ blank_sep ++ words_paragraph 100) 300].
Proof.
  apply three_hundred_words_one_chunk; vm_compute; reflexivity.
Defined.

(** C2, as stated, fails: on three paragraphs of 100 words and target 250
    the chunks are not [(0, 200); (1, 100)], there is one chunk of 300
    words. *)
Lemma two_chunks_expected_one_returned :
  let paragraphs :=
    [words_paragraph 100; words_paragraph 100; words_paragraph 100] in
  map paragraph_words paragraphs = [100; 100; 100]
  /\ map (fun c => (id c, word_count c)) (chunk_paragraphs paragraphs 250)
     = [(0, 300)]
  /\ map (fun c => (id c, word_count c)) (chunk_paragraphs paragraphs 250)
     <> [(0, 200); (1, 100)].
Proof.
  vm_compute. repeat split; discriminate.
Qed.

(** C3.  The chunks are built from consecutive groups of the paragraphs: the
    groups concatenated are the paragraph list, a chunk's content is its
    group joined by blank lines and its word count is the sum of the word
    counts of the paragraphs of its group; every chunk but the last has a
    word count of at least the target.  The last chunk can be below the
    target (one paragraph of one word, target 250).  The target need not be
    positive for any of this. *)
Theorem chunk_word_counts :
  (forall (paragraphs : list str) (target : Z),
     let cs := chunk_paragraphs paragraphs target in
     let gs := chunk_groups paragraphs target in
     List.concat gs = paragraphs
     /\ map content cs = map (join blank_sep) gs
     /\ map word_count cs = map group_words gs
     /\ (forall k c, nth_error cs k = Some c ->
                     (S k < List.length cs)%nat -> target <= word_count c))
  /\ (exists paragraphs target c,
        0 < target /\ chunk_paragraphs paragraphs target = [c]
        /\ word_count c < target).
Proof.
  split.
  - intros paragraphs target cs gs. subst cs gs.
    rewrite chunk_paragraphs_groups.
    split; [apply (groups_from_concat target paragraphs [])|].
    split; [apply chunks_from_contents|].
    split; [apply chunks_from_word_counts|].
    apply (all_but_last_nth (fun c => target <= word_count c)).
    apply (chunks_from_all_but_last (fun n => target <= n)).
    apply groups_from_closed.
  - exists [words_paragraph 1], 250, (mkChunk 0 (words_paragraph 1) 1).
    vm_compute. repeat split; reflexivity.
Qed.

(** C4.  The ids of the returned chunks, in output order, are 0, 1, ...,
    n-1 for n chunks, whatever the paragraph list and the target; the empty
    paragraph list gives the empty chunk list. *)
Theorem chunk_ids_contiguous (paragraphs : list str) (target : Z) :
  map id (chunk_paragraphs paragraphs target)
  = map Z.of_nat (seq 0 (List.length (chunk_paragraphs paragraphs target)))
  /\ chunk_paragraphs [] target = [].
Proof.
  split; [|reflexivity].
  rewrite chunk_paragraphs_groups, chunks_from_ids, chunks_from_length.
  apply map_ext. intros k. lia.
Qed.

End AssemblerProperties.

(** ** The target size resolver *)

Module TargetSize.

Import ChunkScript Buckets.

(** C8.  For every integer age the result is what the ordered bucket table
    gives with inclusive upper bounds (150 up to 12, 220 up to 20, 250 up to
    35, 240 up to 50, 200 up to 65, 180 above), it is positive, and a
    negative age gets 150 like any age of the first bucket. *)
Theorem target_size_buckets (age : Z) :
  get_target_chunk_size age = resolve bucket_table age
  /\ 0 < get_target_chunk_size age
  /\ (age <= 12 -> get_target_chunk_size age = 150)
  /\ (12 < age <= 20 -> get_target_chunk_size age = 220)
  /\ (20 < age <= 35 -> get_target_chunk_size age = 250)
  /\ (35 < age <= 50 -> get_target_chunk_size age = 240)
  /\ (50 < age <= 65 -> get_target_chunk_size age = 200)
  /\ (65 < age -> get_target_chunk_size age = 180)
  /\ (age < 0 -> get_target_chunk_size age = 150).
Proof.
  unfold get_target_chunk_size, resolve, bucket_table, past_last_bucket.
  destruct (Z.leb_spec age 12); [repeat split; lia|].
  destruct (Z.leb_spec age 20); [repeat split; lia|].
  destruct (Z.leb_spec age 35); [repeat split; lia|].
  destruct (Z.leb_spec age 50); [repeat split; lia|].
  destruct (Z.leb_spec age 65); repeat split; lia.
Qed.

End TargetSize.

(** ** The output sequencer *)

Module Sequencer.

Import ChunkScript Listing.

Section WithInt.

Variable py_int : str -> option Z.

Lemma listing_body_In acc filename n :
  In n (listing_body py_int acc filename)
  <-> In n acc \/ numbered py_int filename n.
Proof.
  unfold listing_body, numbered.
  destruct (endswith filename (of_string ".json")).
  - destruct (py_int (splitext_root filename)) as [m|].
    + rewrite in_app_iff. simpl. split.
      * intros [H|[H|[]]]; [now left|right; split; congruence].
      * intros [H|[_ H]]; [now left|right; left; congruence].
    + split; [now left|]. intros [H|[_ H]]; [exact H|discriminate].
  - split; [now left|]. intros [H|[H _]]; [exact H|discriminate].
Qed.

Lemma listing_loop_In listdir n :
  forall acc,
    In n (fold_left (listing_body py_int) listdir acc)
    <-> In n acc
      \/ exists filename, In filename listdir /\ numbered py_int filename n.
Proof.
  induction listdir as [|f rest IH]; intros acc; simpl.
  - split; [now left|]. intros [H|(f & [] & _)]. exact H.
  - rewrite IH, listing_body_In. split.
    + intros [[H|H]|(g & Hg & Hn)].
      * now left.
      * right. exists f. split; [now left|exact H].
      * right. exists g. split; [now right|exact Hn].
    + intros [H|(g & [<-|Hg] & Hn)].
      * left. now left.
      * left. now right.
      * right. now exists g.
Qed.

Lemma py_max_upper l :
  forall x, x <= py_max x l /\ forall n, In n l -> n <= py_max x l.
Proof.
  unfold py_max.
  induction l as [|y l IH]; intros x; simpl.
  - split; [lia|intros n []].
  - destruct (IH (Z.max x y)) as [Hx Hl]. split; [lia|].
    intros n [<-|Hn]; [lia|now apply Hl].
Qed.

Lemma py_max_In l : forall x, In (py_max x l) (x :: l).
Proof.
  unfold py_max.
  induction l as [|y l IH]; intros x; simpl; [now left|].
  destruct (IH (Z.max x y)) as [H|H].
  - rewrite <- H. destruct (Z.max_spec x y) as [[_ ->]|[_ ->]]; auto.
  - right. now right.
Qed.

End WithInt.

(** C6, as amended.  Only file names that end in [.json] are looked at; of
    those, the stem is given to [int], and a stem that [int] refuses is
    skipped.  With no identifier found the result is 0; otherwise it is one
    more than the greatest identifier found, so above all of them.  The
    result is non-negative when no identifier found is below -1; nothing
    makes it so otherwise.  For the stems 0, 1, 3 and draft the result is 4;
    for an empty listing it is 0. *)
Theorem next_id_after_numbered_files :
  forall (py_int : str -> option Z) (listdir : list str),
    let ids := existing_ids py_int listdir in
    (forall n, In n ids <->
               exists filename, In filename listdir /\ numbered py_int filename n)
    /\ (ids = [] -> next_id py_int listdir = 0)
    /\ (ids <> [] ->
        In (next_id py_int listdir - 1) ids
        /\ forall n, In n ids -> n < next_id py_int listdir)
    /\ ((forall n, In n ids -> -1 <= n) -> 0 <= next_id py_int listdir)
    /\ ((forall s, In s (map of_string ["0"; "1"; "3"; "draft"]%string) ->
                   py_int s = int_ascii s) ->
        next_id py_int
          (map of_string ["0.json"; "1.json"; "3.json"; "draft.json"]%string)
        = 4)
    /\ next_id py_int [] = 0.
Proof.
  intros py_int listdir ids.
  split.
  { intros n. unfold ids, existing_ids. rewrite listing_loop_In.
    split; [intros [[]|H]; exact H|intros H; now right]. }
  unfold next_id. fold ids.
  split; [intros ->; reflexivity|].
  split.
  { destruct ids as [|x l]; [congruence|]. intros _.
    replace (py_max x l + 1 - 1) with (py_max x l) by lia.
    split; [apply py_max_In|].
    intros n [<-|Hn].
    - pose proof (proj1 (py_max_upper l x)). lia.
    - pose proof (proj2 (py_max_upper l x) n Hn). lia. }
  split.
  { destruct ids as [|x l]; [lia|]. intros H.
    pose proof (H x (or_introl eq_refl)).
    pose proof (proj1 (py_max_upper l x)). lia. }
  split; [|reflexivity].
  intros H. unfold existing_ids. cbn [map fold_left].
  unfold listing_body.
  repeat match goal with
  | |- context [endswith ?f ?s] =>
      let b := eval vm_compute in (endswith f s) in
      change (endswith f s) with b; cbv iota
  | |- context [splitext_root ?f] =>
      let r := eval vm_compute in (splitext_root f) in
      change (splitext_root f) with r
  end.
  rewrite !H by (simpl; tauto).
  vm_compute. reflexivity.
Qed.

Lemma next_id_after_numbered_files_witness :
  next_id int_ascii
    (map of_string ["0.json"; "1.json"; "3.json"; "draft.json"]%string) = 4
  /\ 0 <= next_id int_ascii (map of_string ["0.json"; "-1.json"]%string).
Proof.
  pose proof (next_id_after_numbered_files int_ascii
                (map of_string ["0.json"; "-1.json"]%string))
    as (_ & _ & _ & Hnonneg & Hex & _).
  split.
  - apply Hex. intros s _. reflexivity.
  - apply Hnonneg. vm_compute. intros n [<-|[<-|[]]]; discriminate.
Defined.

(** C6, as stated, fails twice.  A stem may be a negative numeral: with
    [-5.json] alone in the directory the next identifier is -4, which is
    negative.  And a numeric stem counts only under the [.json] extension:
    with [7.txt] alone the next identifier is 0, not 8. *)
Lemma next_id_negative_and_extension :
  next_id int_ascii [of_string "-5.json"] = -4
  /\ ~ 0 <= next_id int_ascii [of_string "-5.json"]
  /\ int_ascii (splitext_root (of_string "7.txt")) = Some 7
  /\ next_id int_ascii [of_string "7.txt"] = 0.
Proof.
  assert (E : next_id int_ascii [of_string "-5.json"] = -4)
    by (vm_compute; reflexivity).
  split; [exact E|].
  split; [rewrite E; lia|].
  split; vm_compute; reflexivity.
Qed.

End Sequencer.

(** ** The record validator *)

Module Validation.

Import ChunkAnalysis Batches.

Lemma str_eqb_neq a b : a <> b -> str_eqb a b = false.
Proof.
  intros H. unfold str_eqb.
  destruct (list_eq_dec N.eq_dec a b); [contradiction|reflexivity].
Qed.

Section Inbound.

Context {V : FieldValidators}.

Lemma comprehension_app prefix :
  forall ps rest,
    comprehension prefix = Return ps ->
    comprehension (prefix ++ rest)
    = (qs <- comprehension rest ;; Return (ps ++ qs)).
Proof.
  induction prefix as [|item prefix IH]; intros ps rest H; simpl in *.
  - injection H as <-. destruct (comprehension rest); reflexivity.
  - destruct (construct item) as [p|e]; simpl in *; [|discriminate].
    destruct (comprehension prefix) as [ps'|e]; simpl in *; [|discriminate].
    injection H as <-. rewrite (IH ps' rest eq_refl).
    destruct (comprehension rest); reflexivity.
Qed.

Lemma comprehension_accepts items :
  Forall (fun item => exists p, construct item = Return p) items ->
  exists ps, comprehension items = Return ps.
Proof.
  induction 1 as [|item items [p Hp] _ [ps Hps]]; simpl.
  - now exists [].
  - rewrite Hp, Hps. simpl. now exists (p :: ps).
Qed.

Lemma comprehension_raises items e :
  comprehension items = Raise e ->
  exists item, In item items /\ construct item = Raise e.
Proof.
  induction items as [|item items IH]; simpl; [discriminate|].
  destruct (construct item) as [p|e'] eqn:Hc; simpl.
  - destruct (comprehension items) as [ps|e'']; simpl; [discriminate|].
    intros H. injection H as ->.
    destruct (IH eq_refl) as (x & Hx & Hr).
    exists x. split; [now right|exact Hr].
  - intros H. injection H as ->. exists item. split; [now left|exact Hc].
Qed.

Lemma comprehension_returns items :
  forall ps, comprehension items = Return ps ->
             Forall2 (fun item p => construct item = Return p) items ps.
Proof.
  induction items as [|item items IH]; simpl; intros ps H.
  - injection H as <-. constructor.
  - destruct (construct item) as [p|e] eqn:Hc; simpl in H; [|discriminate].
    destruct (comprehension items) as [qs|e]; simpl in H; [|discriminate].
    injection H as <-. constructor; [exact Hc|now apply IH].
Qed.

Lemma construct_dict_raises kwargs e :
  construct (JDict kwargs) = Raise e -> exists errors, e = ValidationError errors.
Proof.
  unfold construct, ParagraphChunk_init.
  destruct (field validate_int _ kwargs), (field validate_str _ kwargs);
    intros H; try discriminate; injection H as <-; eauto.
Qed.

Lemma missing_field_refused name kwargs :
  name = of_string "id" \/ name = of_string "content" ->
  dict_get kwargs name = None ->
  exists errors, construct (JDict kwargs) = Raise (ValidationError errors).
Proof.
  intros Hname Hget. unfold construct, ParagraphChunk_init.
  destruct Hname as [-> | ->].
  - unfold field at 1 3. rewrite Hget.
    destruct (field validate_str _ kwargs); eauto.
  - unfold field at 2 4. rewrite Hget.
    destruct (field validate_int _ kwargs); eauto.
Qed.

Lemma first_refused items :
  Forall (fun item => exists kwargs, item = JDict kwargs) items ->
  Exists (fun item => exists errors,
                        construct item = Raise (ValidationError errors)) items ->
  exists accepted bad later errors,
    items = accepted ++ bad :: later
    /\ Forall (fun item => exists p, construct item = Return p) accepted
    /\ construct bad = Raise (ValidationError errors).
Proof.
  induction 1 as [|item items [kwargs ->] _ IH]; intros Hex;
    [inversion Hex|].
  destruct (construct (JDict kwargs)) as [p|e] eqn:Hc.
  - apply Exists_cons in Hex as [[errors Hbad]|Hex]; [congruence|].
    destruct (IH Hex) as (accepted & bad & later & errors & -> & Hacc & Hbad).
    exists (JDict kwargs :: accepted), bad, later, errors.
    split; [reflexivity|]. split; [|exact Hbad].
    constructor; [now exists p|exact Hacc].
  - destruct (construct_dict_raises _ _ Hc) as [errors ->].
    exists [], (JDict kwargs), items, errors.
    split; [reflexivity|]. split; [constructor|exact Hc].
Qed.

Lemma unknown_field_ignored kwargs kwargs' :
  dict_get kwargs (of_string "id") = dict_get kwargs' (of_string "id") ->
  dict_get kwargs (of_string "content")
  = dict_get kwargs' (of_string "content") ->
  construct (JDict kwargs) = construct (JDict kwargs').
Proof.
  intros Hid Hcontent. unfold construct, ParagraphChunk_init, field.
  now rewrite Hid, Hcontent.
Qed.

End Inbound.

(** C7, as amended.  When the elements before the first failing one are
    accepted and that one is refused by the model, the whole input is
    rejected: the result is the empty list, and the diagnostic is the
    validation error of that first failing element, the later elements not
    being looked at.  So a sequence of objects one of which is refused is
    rejected whole, with one validation error as diagnostic.  A result that
    is not empty has one record per element, each the validated element.
    Fields other than [id] and [content] do not change what the model does
    with an element.  The batch [{id: 1, content: x}, {id: bad}] is
    rejected whole. *)
Theorem inbound_rejects_at_first_failure :
  forall (V : FieldValidators),
    (forall accepted bad later errors,
       Forall (fun item => exists p, construct item = Return p) accepted ->
       construct bad = Raise (ValidationError errors) ->
       load_chunks_from_file (Decodes (JList (accepted ++ bad :: later)))
       = ([MsgFormatMismatch; MsgError (ValidationError errors)], Return []))
    /\ (forall items,
          Forall (fun item => exists kwargs, item = JDict kwargs) items ->
          Exists (fun item => exists errors,
                    construct item = Raise (ValidationError errors)) items ->
          exists errors,
            load_chunks_from_file (Decodes (JList items))
            = ([MsgFormatMismatch; MsgError (ValidationError errors)],
               Return []))
    /\ (forall items out ps,
          load_chunks_from_file (Decodes (JList items)) = (out, Return ps) ->
          ps <> [] ->
          Forall2 (fun item p => construct item = Return p) items ps)
    /\ (forall kwargs key value,
          key <> of_string "id" -> key <> of_string "content" ->
          construct (JDict ((key, value) :: kwargs)) = construct (JDict kwargs))
    /\ snd (load_chunks_from_file (Decodes (JList one_good_one_bad)))
       = Return [].
Proof.
  intros V.
  assert (first_failure : forall accepted bad later errors,
    Forall (fun item => exists p, construct item = Return p) accepted ->
    construct bad = Raise (ValidationError errors) ->
    load_chunks_from_file (Decodes (JList (accepted ++ bad :: later)))
    = ([MsgFormatMismatch; MsgError (ValidationError errors)], Return [])).
  { intros accepted bad later errors Hacc Hbad.
    destruct (comprehension_accepts accepted Hacc) as [ps Hps].
    unfold load_chunks_from_file. simpl py_iter. cbn [bind].
    rewrite (comprehension_app accepted ps _ Hps).
    simpl. rewrite Hbad. reflexivity. }
  split; [exact first_failure|split; [|split; [|split]]].
  - intros items Hobjects Hrefused.
    destruct (first_refused items Hobjects Hrefused)
      as (accepted & bad & later & errors & -> & Hacc & Hbad).
    exists errors. now apply first_failure.
  - intros items out ps H Hne.
    unfold load_chunks_from_file in H. simpl py_iter in H. cbn [bind] in H.
    destruct (comprehension items) as [qs|e] eqn:Hc.
    + injection H as _ <-. now apply comprehension_returns.
    + destruct e; injection H as _ H'; congruence.
  - intros kwargs key value Hid Hcontent.
    apply unknown_field_ignored; cbn [dict_get];
      rewrite str_eqb_neq by assumption; reflexivity.
  - destruct (construct (JDict [(of_string "id", JInt 1);
                                 (of_string "content", JStr (of_string "x"))]))
      as [p|e] eqn:Hfirst.
    + destruct (missing_field_refused (of_string "content")
                  [(of_string "id", JStr (of_string "bad"))])
        as [errors Hbad]; [now right|reflexivity|].
      assert (Hacc : Forall (fun item => exists q, construct item = Return q)
                       [JDict [(of_string "id", JInt 1);
                               (of_string "content", JStr (of_string "x"))]])
        by (repeat constructor; now exists p).
      pose proof (first_failure _ _ [] errors Hacc Hbad) as H.
      cbn [app] in H. unfold one_good_one_bad. now rewrite H.
    + destruct (construct_dict_raises _ _ Hfirst) as [errors ->].
      pose proof (first_failure [] _
                    [JDict [(of_string "id", JStr (of_string "bad"))]]
                    errors (Forall_nil _) Hfirst) as H.
      cbn [app] in H. unfold one_good_one_bad. now rewrite H.
Qed.

Lemma inbound_rejects_at_first_failure_witness :
  @load_chunks_from_file exact_validators (Decodes (JList one_good_one_bad))
  = ([MsgFormatMismatch;
      MsgError (ValidationError [WrongType (of_string "id");
                                 Missing (of_string "content")])],
     Return []).
Proof.
  apply (proj1 (inbound_rejects_at_first_failure exact_validators)
           [JDict [(of_string "id", JInt 1);
                   (of_string "content", JStr (of_string "x"))]]
           (JDict [(of_string "id", JStr (of_string "bad"))]) []).
  - repeat constructor. eexists. vm_compute. reflexivity.
  - vm_compute. reflexivity.
Defined.

(** C7, as stated, fails: the diagnostic does not describe every failing
    element.  Of two elements that both fail, the first for its missing
    [id] and the second for its missing [content], only the first is
    reported; no printed line mentions the second one's error. *)
Lemma diagnostic_only_for_first_failure :
  let run := @load_chunks_from_file exact_validators (Decodes (JList two_bad)) in
  map (@construct exact_validators) two_bad
  = [Raise (ValidationError [Missing (of_string "id")]);
     Raise (ValidationError [Missing (of_string "content")])]
  /\ run = ([MsgFormatMismatch;
             MsgError (ValidationError [Missing (of_string "id")])], Return [])
  /\ existsb (reports (Missing (of_string "content"))) (fst run) = false.
Proof.
  vm_compute. repeat split; reflexivity.
Qed.

(** C10.  A file that exists with text that is not JSON makes the function
    raise the decoder's exception: nothing is printed, no list is returned.
    The empty list with a diagnostic comes only from an absent file or from
    decoded data one of whose elements the model refuses. *)
Theorem undecodable_file_raises :
  forall (V : FieldValidators),
    load_chunks_from_file Undecodable = ([], Raise JSONDecodeError)
    /\ load_chunks_from_file Absent = ([MsgInputNotFound], Return [])
    /\ (forall f out,
          load_chunks_from_file f = (out, Return []) -> out <> [] ->
          f = Absent
          \/ exists data items item errors,
               f = Decodes data /\ py_iter data = Return items
               /\ In item items
               /\ construct item = Raise (ValidationError errors)).
Proof.
  intros V. split; [reflexivity|]. split; [reflexivity|].
  intros [| |data] out H Hout; [now left|discriminate|]. right.
  unfold load_chunks_from_file in H.
  destruct (py_iter data) as [items|e] eqn:Hiter; cbn [bind] in H.
  - destruct (comprehension items) as [ps|e] eqn:Hc.
    + injection H as <- _. congruence.
    + destruct e; try discriminate.
      destruct (comprehension_raises items _ Hc) as (item & Hin & Hr).
      now exists data, items, item, errors.
  - destruct data; simpl in Hiter; try discriminate;
      injection Hiter as <-; discriminate.
Qed.

Lemma undecodable_file_raises_witness :
  Decodes (JList two_bad) = Absent
  \/ exists data items item errors,
       Decodes (JList two_bad) = Decodes data
       /\ @py_iter data = Return items
       /\ In item items
       /\ @construct exact_validators item = Raise (ValidationError errors).
Proof.
  apply (proj2 (proj2 (undecodable_file_raises exact_validators))
           (Decodes (JList two_bad))
           [MsgFormatMismatch;
            MsgError (ValidationError [Missing (of_string "id")])]).
  - vm_compute. reflexivity.
  - discriminate.
Defined.

(** *** Outbound *)




End Validation.

(** ** The text segmenter *)

Module SegmenterFacts.

Import ChunkScript Segmentation.

Lemma isspace_nl : isspace nl = true.
Proof. reflexivity. Qed.

Lemma nl_eqb_space c : (c =? nl)%N = true -> isspace c = true.
Proof. intros H. apply N.eqb_eq in H. now subst c. Qed.

Lemma is_gap_app g h : is_gap (g ++ h) = is_gap g && is_gap h.
Proof. apply forallb_app. Qed.

Lemma newlines_app g h : (newlines (g ++ h) = newlines g + newlines h)%nat.
Proof. unfold newlines. now rewrite filter_app, length_app. Qed.

(** *** Stripping *)

Lemma lstrip_split s : exists lw, s = lw ++ lstrip s /\ is_gap lw = true.
Proof.
  induction s as [|c s (lw & E & G)]; [now exists []|].
  cbn [lstrip]. destruct (isspace c) eqn:Hc.
  - exists (c :: lw). split; [simpl; congruence|].
    simpl. now rewrite Hc.
  - now exists [].
Qed.

Lemma lstrip_head s c r : lstrip s = c :: r -> isspace c = false.
Proof.
  induction s as [|d s IH]; cbn [lstrip]; [discriminate|].
  destruct (isspace d) eqn:Hd; [exact IH|].
  intros H. injection H as <- _. exact Hd.
Qed.

Lemma lstrip_fixed s :
  match s with [] => True | c :: _ => isspace c = false end -> lstrip s = s.
Proof. destruct s as [|c s]; [reflexivity|]. cbn [lstrip]. now intros ->. Qed.

Lemma lstrip_gap s : lstrip s = [] -> is_gap s = true.
Proof.
  intros H. destruct (lstrip_split s) as (lw & E & G).
  rewrite H, app_nil_r in E. now subst lw.
Qed.

Lemma is_gap_rev g : is_gap (rev g) = is_gap g.
Proof.
  induction g as [|c g IH]; [reflexivity|].
  simpl. rewrite is_gap_app, IH. simpl. now rewrite andb_true_r, andb_comm.
Qed.

Lemma rstrip_split s : exists rw, s = rstrip s ++ rw /\ is_gap rw = true.
Proof.
  unfold rstrip. destruct (lstrip_split (rev s)) as (lw & E & G).
  exists (rev lw). split; [|now rewrite is_gap_rev].
  rewrite <- rev_app_distr, <- E. now rewrite rev_involutive.
Qed.

Lemma rstrip_last s c r : rev (rstrip s) = c :: r -> isspace c = false.
Proof. unfold rstrip. rewrite rev_involutive. apply lstrip_head. Qed.

Lemma strip_split s :
  exists lw rw, s = lw ++ strip s ++ rw /\ is_gap lw = true /\ is_gap rw = true.
Proof.
  destruct (lstrip_split s) as (lw & E & G).
  destruct (rstrip_split (lstrip s)) as (rw & E' & G').
  exists lw, rw. unfold strip. now rewrite <- E', <- E.
Qed.

Lemma strip_gap s : strip s = [] -> is_gap s = true.
Proof.
  intros H. destruct (strip_split s) as (lw & rw & E & G & G').
  rewrite H in E. rewrite E, is_gap_app. simpl. now rewrite G, G'.
Qed.

Lemma strip_head s c r : strip s = c :: r -> isspace c = false.
Proof.
  unfold strip. intros H.
  destruct (rstrip_split (lstrip s)) as (rw & E & _).
  rewrite H in E. simpl in E. apply (lstrip_head s c (r ++ rw)). exact E.
Qed.

Lemma strip_last s c r : rev (strip s) = c :: r -> isspace c = false.
Proof. unfold strip. apply rstrip_last. Qed.

Lemma strip_strip s : strip (strip s) = strip s.
Proof.
  unfold strip at 1.
  rewrite (lstrip_fixed (strip s)).
  - unfold strip, rstrip. rewrite rev_involutive.
    f_equal.
    apply lstrip_fixed.
    destruct (lstrip (rev (lstrip s))) as [|c r] eqn:E; [exact I|].
    apply (lstrip_head _ _ _ E).
  - destruct (strip s) as [|c r] eqn:E; [exact I|].
    apply (strip_head _ _ _ E).
Qed.

(** *** The separator pattern *)

Lemma match_spaces_newline_sound s :
  forall rest, match_spaces_newline s = Some rest ->
               exists w, s = w ++ nl :: rest /\ is_gap w = true.
Proof.
  induction s as [|c s IH]; intros rest H; cbn [match_spaces_newline] in H;
    [discriminate|].
  assert (Hnl : (if (c =? nl)%N then Some s else None) = Some rest ->
                exists w, c :: s = w ++ nl :: rest /\ is_gap w = true).
  { destruct (c =? nl)%N eqn:Hc; [|discriminate].
    intros E. injection E as <-. apply N.eqb_eq in Hc. subst c.
    now exists []. }
  destruct (isspace c) eqn:Hsp; [|exact (Hnl H)].
  destruct (match_spaces_newline s) as [x|]; [|exact (Hnl H)].
  injection H as <-. destruct (IH x eq_refl) as (w & E & G).
  exists (c :: w). split; [simpl; congruence|].
  simpl. now rewrite Hsp.
Qed.

Lemma match_spaces_newline_complete w x :
  is_gap w = true -> match_spaces_newline (w ++ nl :: x) <> None.
Proof.
  induction w as [|c w IH]; intros G.
  - simpl app. cbn [match_spaces_newline]. rewrite isspace_nl.
    destruct (match_spaces_newline x); [discriminate|].
    rewrite N.eqb_refl. discriminate.
  - simpl in G. apply andb_true_iff in G as [Hc G].
    simpl app. cbn [match_spaces_newline]. rewrite Hc.
    specialize (IH G).
    destruct (match_spaces_newline (w ++ nl :: x)); [discriminate|congruence].
Qed.

Lemma match_separator_sound s rest :
  match_separator s = Some rest ->
  exists m, s = m ++ rest /\ is_gap m = true /\ (2 <= newlines m)%nat.
Proof.
  destruct s as [|c s]; cbn [match_separator]; [discriminate|].
  destruct (c =? nl)%N eqn:Hc; [|discriminate].
  apply N.eqb_eq in Hc. subst c. intros H.
  destruct (match_spaces_newline_sound s rest H) as (w & -> & G).
  exists (nl :: w ++ [nl]). split; [|split].
  - simpl. now rewrite <- app_assoc.
  - simpl. rewrite is_gap_app, G. reflexivity.
  - change (nl :: w ++ [nl]) with ([nl] ++ w ++ [nl]).
    rewrite !newlines_app. change (newlines [nl]) with 1%nat. lia.
Qed.

(** *** The pieces of the split *)

Lemma re_split_cut c r rest :
  match_separator (c :: r) = Some rest ->
  re_split (c :: r) = [] :: re_split rest.
Proof.
  intros H. simp re_split.
  generalize (inspect (match_separator (c :: r))).
  intros [[x|] e]; simp re_split; congruence.
Qed.

Lemma re_split_char c r :
  match_separator (c :: r) = None ->
  re_split (c :: r) = cons_head c (re_split r).
Proof.
  intros H. simp re_split.
  generalize (inspect (match_separator (c :: r))).
  intros [[x|] e]; simp re_split; congruence.
Qed.

Lemma re_split_cut_into s : cut_into s (re_split s).
Proof.
  funelim (re_split s).
  - constructor.
  - destruct (match_separator_sound _ _ e) as (m & E & G & N).
    rewrite E. apply (cut_more [] m rest); assumption.
  - inversion H as [q Hq Hs|q m rest qs G N Hrest Hq Hs]; simpl.
    + constructor.
    + apply (cut_more (c :: q) m rest); assumption.
Qed.

Lemma cut_into_prefix s q qs : cut_into s (q :: qs) -> exists tail, s = q ++ tail.
Proof.
  inversion 1; subst.
  - exists []. now rewrite app_nil_r.
  - now exists (m ++ rest).
Qed.

Lemma re_split_no_blank_line s :
  Forall (fun q => ~ blank_line_inside q) (re_split s).
Proof.
  funelim (re_split s).
  - constructor; [|constructor].
    intros (a & w & b & E & _). now destruct a.
  - constructor; [|assumption].
    intros (a & w & b & E & _). now destruct a.
  - pose proof (re_split_cut_into r) as Hcut.
    destruct (re_split r) as [|q qs]; [inversion Hcut|].
    apply Forall_cons_iff in H as [Hq Hqs].
    simpl. constructor; [|exact Hqs].
    intros (a & w & b & E & G).
    destruct a as [|a0 a]; simpl in E; injection E as -> E.
    + destruct (cut_into_prefix _ _ _ Hcut) as [tail ->].
      pose proof e as e'.
      cbn [match_separator] in e'. rewrite N.eqb_refl in e'.
      subst q. rewrite <- app_assoc in e'. simpl in e'.
      now apply (match_spaces_newline_complete w (b ++ tail)).
    + apply Hq. now exists a, w, b.
Qed.

(** *** From the pieces to the paragraphs *)

Lemma split_into_paragraphs_kept text :
  split_into_paragraphs text = kept (re_split text).
Proof. reflexivity. Qed.

Lemma kept_cons q qs :
  kept (q :: qs)
  = match strip q with [] => kept qs | _ :: _ => strip q :: kept qs end.
Proof.
  unfold kept. cbn [filter].
  destruct (strip q) eqn:E; cbn [str_truthy map]; rewrite ?E; reflexivity.
Qed.

Lemma cut_into_laid_out s qs :
  cut_into s qs ->
  forall pre need,
    is_gap pre = true -> (need <= newlines pre)%nat ->
    laid_out need (pre ++ s) (kept qs).
Proof.
  induction 1 as [q|q m rest qs Gm Nm Hcut IH]; intros pre need Gpre Npre;
    rewrite kept_cons;
    destruct (strip_split q) as (lw & rw & E & Glw & Grw);
    destruct (strip q) as [|c p] eqn:Hstrip.
  - cbn [kept filter map laid_out].
    rewrite is_gap_app, Gpre. now rewrite (strip_gap q Hstrip).
  - cbn [kept filter map laid_out].
    exists (pre ++ lw), rw. repeat split.
    + rewrite E at 1. now rewrite <- app_assoc.
    + now rewrite is_gap_app, Gpre, Glw.
    + rewrite newlines_app. lia.
    + exact Grw.
  - replace (pre ++ q ++ m ++ rest) with ((pre ++ q ++ m) ++ rest)
      by now rewrite <- !app_assoc.
    apply IH.
    + rewrite !is_gap_app, Gpre, Gm. now rewrite (strip_gap q Hstrip).
    + rewrite !newlines_app. lia.
  - cbn [laid_out].
    exists (pre ++ lw), ((rw ++ m) ++ rest). repeat split.
    + rewrite E at 1. now rewrite <- !app_assoc.
    + now rewrite is_gap_app, Gpre, Glw.
    + rewrite newlines_app. lia.
    + apply IH.
      * now rewrite is_gap_app, Grw, Gm.
      * rewrite newlines_app. lia.
Qed.

Lemma blank_line_inside_strip q :
  blank_line_inside (strip q) -> blank_line_inside q.
Proof.
  intros (a & w & b & E & G).
  destruct (strip_split q) as (lw & rw & Eq & _ & _).
  exists (lw ++ a), w, (b ++ rw). split; [|exact G].
  rewrite Eq, E. rewrite <- !app_assoc. simpl. now rewrite <- !app_assoc.
Qed.

Lemma kept_paragraphs qs :
  Forall (fun q => ~ blank_line_inside q) qs ->
  Forall well_formed (kept qs).
Proof.
  induction 1 as [|q qs Hq _ IH]; [constructor|].
  rewrite kept_cons. destruct (strip q) as [|c p] eqn:E; [exact IH|].
  constructor; [|exact IH]. rewrite <- E. repeat split.
  - congruence.
  - apply strip_strip.
  - intros H. apply Hq. now apply blank_line_inside_strip.
Qed.

(** *** The layout determines the paragraphs *)

Lemma gap_no_nonspace g c r : is_gap g = true -> g = c :: r -> isspace c = true.
Proof. intros G ->. simpl in G. now apply andb_true_iff in G as [H _]. Qed.

Lemma gap_prefix_unique g g' x x' :
  g ++ x = g' ++ x' ->
  is_gap g = true -> is_gap g' = true ->
  (forall c r, x = c :: r -> isspace c = false) ->
  (forall c r, x' = c :: r -> isspace c = false) ->
  g = g' /\ x = x'.
Proof.
  revert g'. induction g as [|c g IH]; intros [|c' g'] E G G' Hx Hx'.
  - now split.
  - simpl in E. simpl in G'. apply andb_true_iff in G' as [Hc' _].
    rewrite (Hx c' (g' ++ x') E) in Hc'. discriminate.
  - simpl in E. simpl in G. apply andb_true_iff in G as [Hc _].
    rewrite (Hx' c (g ++ x) (eq_sym E)) in Hc. discriminate.
  - simpl in E. injection E as <- E.
    simpl in G, G'.
    apply andb_true_iff in G as [_ G]. apply andb_true_iff in G' as [_ G'].
    destruct (IH g' E G G' Hx Hx') as [-> ->]. now split.
Qed.

(** A gap with two newlines holds a blank line between them. *)
Lemma break_blank_line g :
  is_gap g = true -> (2 <= newlines g)%nat ->
  exists a w b, g = a ++ nl :: w ++ nl :: b /\ is_gap w = true.
Proof.
  assert (one : forall h, is_gap h = true -> (1 <= newlines h)%nat ->
                          exists w b, h = w ++ nl :: b /\ is_gap w = true).
  { induction h as [|c h IH]; intros G N;
    [unfold newlines in N; simpl in N; lia|].
    simpl in G. apply andb_true_iff in G as [Hc G].
    unfold newlines in N. cbn [filter] in N.
    destruct (c =? nl)%N eqn:E.
    - apply N.eqb_eq in E. subst c. now exists [], h.
    - destruct (IH G N) as (w & b & -> & Gw).
      exists (c :: w), b. split; [reflexivity|]. simpl. now rewrite Hc. }
  induction g as [|c g IH]; intros G N;
    [unfold newlines in N; simpl in N; lia|].
  simpl in G. apply andb_true_iff in G as [Hc G].
  unfold newlines in N. cbn [filter] in N.
  destruct (c =? nl)%N eqn:E.
  - apply N.eqb_eq in E. subst c.
    simpl in N. destruct (one g G) as (w & b & -> & Gw);
      [unfold newlines; lia|].
    now exists [], w, b.
  - destruct (IH G N) as (a & w & b & -> & Gw).
    now exists (c :: a), w, b.
Qed.

(** A paragraph cannot go on past the start of the gap that follows it in
    another layout of the same text. *)
Lemma paragraph_stops l tail' rest' p' p :
  p = p' ++ l -> l <> [] ->
  (forall c r, rev p = c :: r -> isspace c = false) ->
  ~ blank_line_inside p ->
  Forall (fun q => forall c r, q = c :: r -> isspace c = false) rest' ->
  laid_out 2 tail' rest' ->
  forall tail, tail' = l ++ tail -> False.
Proof.
  intros Ep Hl Hlast Hblank Hheads Hlay tail Etail.
  assert (Hnotgap : is_gap l = true -> False).
  { intros G.
    destruct (rev l) as [|c r] eqn:Er.
    - apply (f_equal (@rev char)) in Er. rewrite rev_involutive in Er.
      now apply Hl.
    - assert (Hc : isspace c = false).
      { apply (Hlast c (r ++ rev p')). rewrite Ep, rev_app_distr, Er.
        reflexivity. }
      rewrite <- is_gap_rev, Er in G. simpl in G. now rewrite Hc in G. }
  destruct rest' as [|p2 rest'].
  - cbn [laid_out] in Hlay. rewrite Etail, is_gap_app in Hlay.
    apply andb_true_iff in Hlay as [G _]. now apply Hnotgap.
  - cbn [laid_out] in Hlay.
    destruct Hlay as (g & t & Et & Gg & Ng & _).
    rewrite Etail in Et.
    apply app_eq_app in Et as [k [[El Ek]|[Eg Ek]]].
    + destruct (break_blank_line g Gg Ng) as (a & w & b & -> & Gw).
      apply Hblank. exists (p' ++ a), w, (b ++ k). split; [|exact Gw].
      rewrite Ep, El. rewrite <- !app_assoc. simpl. now rewrite <- app_assoc.
    + apply Hnotgap.
      rewrite Eg, is_gap_app in Gg. now apply andb_true_iff in Gg as [G _].
Qed.

Lemma laid_out_unique paragraphs :
  forall text need need' paragraphs',
    laid_out need text paragraphs -> laid_out need' text paragraphs' ->
    Forall well_formed paragraphs -> Forall well_formed paragraphs' ->
    paragraphs = paragraphs'.
Proof.
  assert (Hhead : forall p, well_formed p ->
                            forall c r, p = c :: r -> isspace c = false).
  { intros p (_ & Hs & _) c r E. apply (strip_head p c r). now rewrite Hs. }
  assert (Hlast : forall p, well_formed p ->
                            forall c r, rev p = c :: r -> isspace c = false).
  { intros p (_ & Hs & _) c r E. apply (strip_last p c r). now rewrite Hs. }
  assert (Hnongap : forall p g t, well_formed p -> is_gap (g ++ p ++ t) = true
                                  -> False).
  { intros p g t Hp G. rewrite !is_gap_app in G.
    apply andb_true_iff in G as [_ G]. apply andb_true_iff in G as [G _].
    destruct p as [|c r] eqn:E; [now destruct Hp|].
    pose proof (Hhead _ Hp c r eq_refl) as Hc.
    simpl in G. now rewrite Hc in G. }
  assert (Hheads : forall ps, Forall well_formed ps ->
            Forall (fun q => forall c r, q = c :: r -> isspace c = false) ps).
  { intros ps H. eapply Forall_impl; [|exact H]. intros q Hq. now apply Hhead. }
  induction paragraphs as [|p rest IH];
    intros text need need' [|p' rest'] L L' W W'.
  - reflexivity.
  - cbn [laid_out] in L, L'. destruct L' as (g & t & -> & _).
    apply Forall_cons_iff in W' as [Hp' _]. now destruct (Hnongap p' g t).
  - cbn [laid_out] in L, L'. destruct L as (g & t & -> & _).
    apply Forall_cons_iff in W as [Hp _]. now destruct (Hnongap p g t).
  - cbn [laid_out] in L, L'.
    destruct L as (g & t & E & G & _ & L).
    destruct L' as (g' & t' & E' & G' & _ & L').
    apply Forall_cons_iff in W as [Hp W].
    apply Forall_cons_iff in W' as [Hp' W'].
    rewrite E in E'.
    destruct (gap_prefix_unique g g' (p ++ t) (p' ++ t') E' G G') as [_ Ept].
    + intros c r Ec. destruct p as [|c0 p0]; [now destruct Hp|].
      simpl in Ec. injection Ec as <- _. now apply (Hhead _ Hp c0 p0).
    + intros c r Ec. destruct p' as [|c0 p0]; [now destruct Hp'|].
      simpl in Ec. injection Ec as <- _. now apply (Hhead _ Hp' c0 p0).
    + assert (Epp : p = p').
      { apply app_eq_app in Ept as [l [[El Et]|[El Et]]].
        - destruct l as [|c l]; [now rewrite app_nil_r in El|].
          exfalso.
          apply (paragraph_stops (c :: l) t' rest' p' p El) with (tail := t);
            try discriminate.
          + now apply Hlast.
          + now destruct Hp as (_ & _ & H).
          + now apply Hheads.
          + exact L'.
          + exact Et.
        - destruct l as [|c l]; [now rewrite app_nil_r in El|].
          exfalso.
          apply (paragraph_stops (c :: l) t rest p p' El) with (tail := t');
            try discriminate.
          + now apply Hlast.
          + now destruct Hp' as (_ & _ & H).
          + now apply Hheads.
          + exact L.
          + exact Et. }
      subst p'. apply app_inv_head in Ept. subst t'.
      f_equal. now apply (IH t 2%nat 2%nat rest').
Qed.

End SegmenterFacts.

Module SegmenterProperties.

Import ChunkScript Segmentation SegmenterFacts.

(** C9.  The text is its paragraphs in their order with gaps of whitespace
    around them: whitespace only before the first and after the last, and
    between two paragraphs a gap that holds two newlines, so a run of one or
    more blank lines.  Every paragraph is non-empty, trimmed, and has no
    blank line inside, so the cuts are at every run of blank lines.  No
    other list of such paragraphs is laid out in the text in this way, and
    the result depends on the text alone: the same text gives the same
    list. *)
Theorem paragraphs_between_blank_lines (text : str) :
  laid_out 0 text (split_into_paragraphs text)
  /\ Forall well_formed (split_into_paragraphs text)
  /\ (forall paragraphs,
        laid_out 0 text paragraphs -> Forall well_formed paragraphs ->
        paragraphs = split_into_paragraphs text)
  /\ (forall again, again = text ->
                    split_into_paragraphs again = split_into_paragraphs text).
Proof.
  assert (L : laid_out 0 text (split_into_paragraphs text)).
  { rewrite split_into_paragraphs_kept.
    apply (cut_into_laid_out text (re_split text) (re_split_cut_into text) []);
      [reflexivity|simpl; lia]. }
  assert (W : Forall well_formed (split_into_paragraphs text)).
  { rewrite split_into_paragraphs_kept.
    apply kept_paragraphs, re_split_no_blank_line. }
  split; [exact L|]. split; [exact W|]. split.
  - intros paragraphs L' W'.
    now apply (laid_out_unique paragraphs text 0%nat 0%nat).
  - intros again ->. reflexivity.
Qed.

End SegmenterProperties.

(** ** Undoing the blank-line join *)

Module JoinFacts.

Import ChunkScript Segmentation SegmenterFacts Assembly AssemblyFacts.

Lemma split_blank_step c d r :
  split_blank (c :: d :: r)
  = if ((c =? nl)%N && (d =? nl)%N) then [] :: split_blank r
    else cons_head c (split_blank (d :: r)).
Proof. reflexivity. Qed.

Lemma split_blank_whole p :
  (forall a b, p <> a ++ nl :: nl :: b) -> split_blank p = [p].
Proof.
  induction p as [|c r IH]; intros H; [reflexivity|].
  destruct r as [|d r]; [reflexivity|].
  rewrite split_blank_step.
  destruct ((c =? nl)%N && (d =? nl)%N) eqn:E.
  - apply andb_true_iff in E as [Ec Ed].
    apply N.eqb_eq in Ec, Ed. subst c d. now destruct (H [] r).
  - rewrite IH; [reflexivity|].
    intros a b Eq. apply (H (c :: a) b). simpl. now rewrite Eq.
Qed.

Lemma split_blank_sep p rest :
  (forall a b, p <> a ++ nl :: nl :: b) ->
  (forall a, p <> a ++ [nl]) ->
  split_blank (p ++ nl :: nl :: rest) = p :: split_blank rest.
Proof.
  induction p as [|c r IH]; intros H Hend.
  - simpl app. rewrite split_blank_step. now rewrite N.eqb_refl.
  - assert (Hr : forall a b, r <> a ++ nl :: nl :: b).
    { intros a b Eq. apply (H (c :: a) b). simpl. now rewrite Eq. }
    assert (Hrend : forall a, r <> a ++ [nl]).
    { intros a Eq. apply (Hend (c :: a)). simpl. now rewrite Eq. }
    destruct r as [|d r].
    + simpl app. rewrite split_blank_step.
      destruct (c =? nl)%N eqn:Ec.
      * apply N.eqb_eq in Ec. subst c. now destruct (Hend []).
      * cbn [andb]. rewrite split_blank_step, N.eqb_refl. reflexivity.
    + change ((c :: d :: r) ++ nl :: nl :: rest)
        with (c :: d :: (r ++ nl :: nl :: rest)).
      rewrite split_blank_step.
      destruct ((c =? nl)%N && (d =? nl)%N) eqn:E.
      * apply andb_true_iff in E as [Ec Ed].
        apply N.eqb_eq in Ec, Ed. subst c d. now destruct (H [] r).
      * change (d :: r ++ nl :: nl :: rest)
          with ((d :: r) ++ nl :: nl :: rest).
        rewrite (IH Hr Hrend). reflexivity.
Qed.

Lemma split_blank_join g :
  g <> [] -> Forall separable g -> split_blank (join blank_sep g) = g.
Proof.
  induction g as [|p g IH]; intros Hne Hall; [congruence|].
  apply Forall_cons_iff in Hall as [[Hp Hend] Hall].
  destruct g as [|p2 g].
  - simpl. now apply split_blank_whole.
  - change (join blank_sep (p :: p2 :: g))
      with (p ++ nl :: nl :: join blank_sep (p2 :: g)).
    rewrite (split_blank_sep p _ Hp Hend).
    rewrite IH; [reflexivity|discriminate|exact Hall].
Qed.

Lemma split_blank_groups gs :
  Forall (fun g => g <> []) gs ->
  Forall separable (List.concat gs) ->
  map split_blank (map (join blank_sep) gs) = gs.
Proof.
  induction 1 as [|g gs Hg _ IH]; intros Hall; [reflexivity|].
  simpl in Hall. apply Forall_app in Hall as [Hgall Hrest].
  simpl. rewrite (split_blank_join g Hg Hgall), (IH Hrest). reflexivity.
Qed.

(** The paragraphs of the segmenter are separable. *)
Lemma trimmed_separable p :
  strip p = p -> ~ blank_line_inside p -> separable p.
Proof.
  intros Hstrip Hblank. split.
  - intros a b E. apply Hblank. now exists a, [], b.
  - intros a E.
    assert (Hrev : rev (strip p) = nl :: rev a).
    { rewrite Hstrip, E, rev_app_distr. reflexivity. }
    apply strip_last in Hrev. rewrite isspace_nl in Hrev. discriminate.
Qed.

Lemma split_into_paragraphs_separable text :
  Forall separable (split_into_paragraphs text).
Proof.
  rewrite split_into_paragraphs_kept.
  pose proof (kept_paragraphs _ (re_split_no_blank_line text)) as H.
  eapply Forall_impl; [|exact H].
  intros p (_ & Hstrip & Hblank). now apply trimmed_separable.
Qed.

End JoinFacts.

Module Preservation.

Import ChunkScript Segmentation Assembly AssemblyFacts JoinFacts.

(** C1.  For every text and every target, cutting the content of each
    returned chunk at its blank-line separators gives back the group of
    paragraphs the chunk was made of, and these lists, one after the other
    in chunk order, are the paragraph sequence of the segmenter on the text:
    every paragraph is whole inside one chunk. *)
Theorem chunks_preserve_paragraphs (text : str) (target : Z) :
  let paragraphs := split_into_paragraphs text in
  let cs := chunk_paragraphs paragraphs target in
  map (fun c => split_blank (content c)) cs = chunk_groups paragraphs target
  /\ List.concat (map (fun c => split_blank (content c)) cs) = paragraphs.
Proof.
  intros paragraphs cs.
  assert (Hgroups : map (fun c => split_blank (content c)) cs
                    = chunk_groups paragraphs target).
  { subst cs. rewrite chunk_paragraphs_groups.
    rewrite <- (map_map content split_blank), chunks_from_contents.
    apply split_blank_groups.
    - apply groups_from_nonempty.
    - unfold chunk_groups. rewrite groups_from_concat. simpl.
      apply split_into_paragraphs_separable. }
  split; [exact Hgroups|].
  rewrite Hgroups. apply (groups_from_concat target paragraphs []).
Qed.

End Preservation.

(** ** The model on small inputs *)

Module Examples.

Import ChunkScript Assembly.

Definition sp : str := of_string " ".

Example re_split_pieces :
  re_split ([nl] ++ sp ++ [nl] ++ of_string "a" ++ [nl; nl] ++ sp
            ++ of_string "b" ++ [nl] ++ sp)
  = [[]; of_string "a"; sp ++ of_string "b" ++ [nl] ++ sp].
Proof. reflexivity. Qed.

Example greedy_separator :
  match_separator ([nl] ++ sp ++ [nl; nl] ++ sp ++ of_string "b")
  = Some (sp ++ of_string "b").
Proof. reflexivity. Qed.

Example three_paragraphs :
  split_into_paragraphs
    (of_string "a b" ++ [nl] ++ sp ++ [nl] ++ sp ++ of_string "c d" ++ sp
     ++ [nl; nl; nl] ++ of_string "e" ++ [nl] ++ of_string "f" ++ [nl])
  = [of_string "a b"; of_string "c d"; of_string "e" ++ [nl] ++ of_string "f"].
Proof. reflexivity. Qed.

Example words_of_a_paragraph :
  split (of_string "  hello  world x ")
  = [of_string "hello"; of_string "world"; of_string "x"].
Proof. reflexivity. Qed.

(** A paragraph above the target is a chunk of its own. *)
Example oversized_paragraph :
  chunk_paragraphs [words_paragraph 500] 250
  = [mkChunk 0 (words_paragraph 500) 500].
Proof. vm_compute. reflexivity. Qed.

Example two_chunks :
  chunk_paragraphs (map of_string ["a b"; "c"; "d e f"]%string) 3
  = [mkChunk 0 (of_string "a b" ++ blank_sep ++ of_string "c") 3;
     mkChunk 1 (of_string "d e f") 3].
Proof. reflexivity. Qed.

Example stems :
  map splitext_root (map of_string ["3.json"; "a.9.json"; "..json"; ".json"]%string)
  = map of_string ["3"; "a.9"; "..json"; ".json"]%string.
Proof. reflexivity. Qed.

Example next_path :
  get_next_output_path int_ascii (map of_string ["0.json"; "1.json"]%string)
                       (of_string "chunked_results") (of_string "book")
  = of_string "chunked_results/book/2.json".
Proof. reflexivity. Qed.

Example numerals :
  map int_ascii (map of_string ["3"; "-5"; "+7"; " 1_0 "; "draft"; "1__0"; ""]%string)
  = [Some 3; Some (-5); Some 7; Some 10; None; None; None].
Proof. reflexivity. Qed.

End Examples.

(** ** More on the chunk assembler *)

Module AssemblerMore.

Import ChunkScript Assembly AssemblyFacts Sizes.

Lemma total_group_words gs :
  total (map group_words gs) = group_words (List.concat gs).
Proof.
  induction gs as [|g gs IH]; simpl; [reflexivity|].
  rewrite group_words_app, <- IH. reflexivity.
Qed.

(** X1.  The word counts of the chunks add up to the word counts of the
    paragraphs: the pass neither loses nor repeats a paragraph's words. *)
Theorem word_counts_add_up (paragraphs : list str) (target : Z) :
  total (map word_count (chunk_paragraphs paragraphs target))
  = group_words paragraphs.
Proof.
  rewrite chunk_paragraphs_groups, chunks_from_word_counts.
  rewrite total_group_words. unfold chunk_groups.
  now rewrite groups_from_concat.
Qed.

Lemma groups_from_close_late target paragraphs :
  forall current,
    closes_late target current ->
    Forall (closes_late target) (groups_from target current paragraphs).
Proof.
  assert (single : forall p, closes_late target [p]).
  { intros p init last E Hne. destruct init as [|a init]; [congruence|].
    simpl in E. injection E as _ E. now destruct init. }
  induction paragraphs as [|p rest IH]; intros [|q cur] H;
    cbn [groups_from].
  - constructor.
  - constructor; [exact H|constructor].
  - apply IH, single.
  - destruct (group_words (q :: cur) <? target) eqn:Hlt.
    + apply IH. intros init last E _.
      change (q :: cur ++ [p]) with ((q :: cur) ++ [p]) in E.
      apply app_inj_tail in E as [<- _]. now apply Z.ltb_lt.
    + constructor; [exact H|]. apply IH, single.
Qed.

(** X2.  A chunk never goes far past the target: its word count is that of its
    last paragraph added to a count that was still below the target, or it is
    a single paragraph. *)
Theorem chunk_size_bound (paragraphs : list str) (target : Z) :
  Forall2 (fun c g =>
             exists init last,
               g = init ++ [last]
               /\ word_count c = group_words init + paragraph_words last
               /\ (init <> [] -> group_words init < target))
          (chunk_paragraphs paragraphs target)
          (chunk_groups paragraphs target).
Proof.
  rewrite chunk_paragraphs_groups. unfold chunk_groups.
  pose proof (groups_from_close_late target paragraphs [])
    as Hlate.
  pose proof (groups_from_nonempty target paragraphs []) as Hne.
  assert (H0 : closes_late target []).
  { intros init last E. now destruct init. }
  specialize (Hlate H0). clear H0.
  generalize 0 as i.
  induction (groups_from target [] paragraphs) as [|g gs IH]; intros i;
    simpl; [constructor|].
  apply Forall_cons_iff in Hlate as [Hg Hlate].
  apply Forall_cons_iff in Hne as [Hgne Hne].
  constructor; [|now apply IH].
  destruct (exists_last Hgne) as (init & last & ->).
  exists init, last. split; [reflexivity|]. split.
  - simpl. rewrite group_words_app. simpl. lia.
  - intros Hinit. now apply (Hg init last).
Qed.

Lemma concat_length_ge {A} (gs : list (list A)) :
  Forall (fun g => g <> []) gs ->
  (List.length gs <= List.length (List.concat gs))%nat.
Proof.
  induction 1 as [|g gs Hg _ IH]; simpl; [lia|].
  rewrite length_app. destruct g; [congruence|]. simpl. lia.
Qed.

(** X3.  There are at most as many chunks as paragraphs, at least one when
    there is a paragraph, and every chunk is made of at least one paragraph. *)
Theorem chunk_count (paragraphs : list str) (target : Z) :
  (List.length (chunk_paragraphs paragraphs target)
   <= List.length paragraphs)%nat
  /\ (paragraphs <> [] -> chunk_paragraphs paragraphs target <> [])
  /\ List.length (chunk_groups paragraphs target)
     = List.length (chunk_paragraphs paragraphs target)
  /\ Forall (fun g => g <> []) (chunk_groups paragraphs target).
Proof.
  rewrite chunk_paragraphs_groups, chunks_from_length. unfold chunk_groups.
  pose proof (groups_from_nonempty target paragraphs []) as Hne.
  pose proof (groups_from_concat target paragraphs []) as Hcat.
  simpl in Hcat. repeat split.
  - rewrite <- Hcat at 2. now apply concat_length_ge.
  - intros Hp Hnil.
    assert (Hg : groups_from target [] paragraphs <> [])
      by (apply groups_from_not_nil; now right).
    destruct (groups_from target [] paragraphs); [congruence|discriminate].
  - exact Hne.
Qed.

Lemma chunk_count_witness :
  chunk_paragraphs [words_paragraph 3] 250 <> [].
Proof.
  apply (proj1 (proj2 (chunk_count [words_paragraph 3] 250))).
  discriminate.
Defined.

Lemma groups_from_singletons target :
  target <= 0 ->
  forall paragraphs q,
    groups_from target [q] paragraphs = map (fun p => [p]) (q :: paragraphs).
Proof.
  intros Ht. induction paragraphs as [|p rest IH]; intros q; [reflexivity|].
  cbn [groups_from].
  destruct (group_words [q] <? target) eqn:Hlt.
  - apply Z.ltb_lt in Hlt. pose proof (group_words_nonneg [q]). lia.
  - rewrite IH. reflexivity.
Qed.

(** X4.  With a target of zero or less no paragraph is ever added to an open
    chunk: each paragraph is a chunk of its own, in order. *)
Theorem nonpositive_target_one_paragraph_per_chunk
        (paragraphs : list str) (target : Z) :
  target <= 0 ->
  map content (chunk_paragraphs paragraphs target) = paragraphs
  /\ map word_count (chunk_paragraphs paragraphs target)
     = map paragraph_words paragraphs.
Proof.
  intros Ht. rewrite chunk_paragraphs_groups.
  rewrite chunks_from_contents, chunks_from_word_counts.
  unfold chunk_groups. destruct paragraphs as [|q rest]; [now split|].
  cbn [groups_from]. rewrite (groups_from_singletons target Ht).
  rewrite !map_map. split.
  - simpl. f_equal. induction rest; simpl; congruence.
  - simpl. f_equal; [lia|].
    apply map_ext. intros p. simpl. lia.
Qed.

Lemma nonpositive_target_one_paragraph_per_chunk_witness :
  map content (chunk_paragraphs [words_paragraph 2; words_paragraph 3] 0)
  = [words_paragraph 2; words_paragraph 3]
  /\ map word_count (chunk_paragraphs [words_paragraph 2; words_paragraph 3] 0)
     = map paragraph_words [words_paragraph 2; words_paragraph 3].
Proof.
  apply nonpositive_target_one_paragraph_per_chunk. lia.
Defined.

Lemma groups_from_one_group target :
  forall paragraphs current,
    current <> [] ->
    group_words (current ++ removelast paragraphs) < target ->
    groups_from target current paragraphs = [current ++ paragraphs].
Proof.
  induction paragraphs as [|p rest IH]; intros current Hne Hlt.
  - simpl. rewrite app_nil_r. now destruct current.
  - assert (Hcur : group_words current < target).
    { rewrite group_words_app in Hlt.
      pose proof (group_words_nonneg (removelast (p :: rest))). lia. }
    destruct current as [|q cur]; [congruence|].
    cbn [groups_from]. apply Z.ltb_lt in Hcur. rewrite Hcur.
    destruct rest as [|p2 rest]; [reflexivity|].
    rewrite IH.
    + now rewrite <- app_assoc.
    + discriminate.
    + change (removelast (p :: p2 :: rest))
        with (p :: removelast (p2 :: rest)) in Hlt.
      change ((q :: cur) ++ p :: removelast (p2 :: rest))
        with (q :: cur ++ [p] ++ removelast (p2 :: rest)) in Hlt.
      rewrite app_assoc in Hlt. exact Hlt.
Qed.

(** X5.  A list whose paragraphs before the last stay below the target goes
    into one chunk. *)
Theorem below_target_one_chunk (paragraphs : list str) (target : Z) :
  paragraphs <> [] ->
  group_words (removelast paragraphs) < target ->
  chunk_paragraphs paragraphs target
  = [mkChunk 0 (join blank_sep paragraphs) (group_words paragraphs)].
Proof.
  intros Hne Hlt. rewrite chunk_paragraphs_groups. unfold chunk_groups.
  destruct paragraphs as [|q rest]; [congruence|].
  cbn [groups_from].
  destruct rest as [|p rest]; [reflexivity|].
  rewrite (groups_from_one_group target (p :: rest) [q]).
  - reflexivity.
  - discriminate.
  - exact Hlt.
Qed.

Lemma below_target_one_chunk_witness :
  chunk_paragraphs [words_paragraph 2; words_paragraph 3; words_paragraph 400]
                   6
  = [mkChunk 0 (join blank_sep [words_paragraph 2; words_paragraph 3;
                                words_paragraph 400])
             (group_words [words_paragraph 2; words_paragraph 3;
                           words_paragraph 400])].
Proof.
  apply below_target_one_chunk; [discriminate|vm_compute; reflexivity].
Defined.

Lemma loop_body_count target st p :
  current_chunk_word_count st = group_words (current_chunk_content st) ->
  current_chunk_word_count (loop_body target st p)
  = group_words (current_chunk_content (loop_body target st p)).
Proof.
  destruct st as [cs cur cnt i]. simpl. intros ->. unfold loop_body. simpl.
  destruct cur as [|q cur]; simpl.
  - unfold paragraph_words. lia.
  - destruct (paragraph_words q + group_words cur <? target); simpl.
    + change (paragraph_words q + group_words (cur ++ [p]))
        with (group_words ((q :: cur) ++ [p])).
      rewrite group_words_app. simpl. unfold paragraph_words. lia.
    + unfold paragraph_words. lia.
Qed.

Lemma loop_count target paragraphs :
  forall st,
    current_chunk_word_count st = group_words (current_chunk_content st) ->
    let st' := fold_left (loop_body target) paragraphs st in
    current_chunk_word_count st' = group_words (current_chunk_content st').
Proof.
  induction paragraphs as [|p rest IH]; intros st H; simpl; [exact H|].
  apply IH. now apply loop_body_count.
Qed.

(** X6.  Paragraphs that come later leave the chunks already closed as they
    are: the chunks of a longer list start with the chunks of the shorter one,
    its last chunk apart. *)
Theorem closed_chunks_stay (paragraphs more : list str) (target : Z) :
  exists tail,
    chunk_paragraphs (paragraphs ++ more) target
    = removelast (chunk_paragraphs paragraphs target) ++ tail.
Proof.
  unfold chunk_paragraphs. rewrite fold_left_app.
  set (st := fold_left (loop_body target) paragraphs loop_init).
  assert (Hst : current_chunk_word_count st
                = group_words (current_chunk_content st)).
  { apply (loop_count target paragraphs loop_init). reflexivity. }
  rewrite (loop_groups target more st Hst).
  unfold loop_exit. destruct (current_chunk_content st) as [|q cur].
  - destruct (chunks st) as [|c cs] eqn:E using rev_ind.
    + now eexists.
    + rewrite removelast_last, <- app_assoc. now eexists.
  - rewrite removelast_last. now eexists.
Qed.

End AssemblerMore.

(** ** More on the text segmenter *)

Module SegmenterMore.

Import ChunkScript Segmentation SegmenterFacts Assembly AssemblyFacts Sizes.

Lemma split_into_paragraphs_laid_out text :
  laid_out 0 text (split_into_paragraphs text).
Proof.
  rewrite split_into_paragraphs_kept.
  apply (cut_into_laid_out text (re_split text) (re_split_cut_into text) []);
    [reflexivity|simpl; lia].
Qed.

Lemma split_into_paragraphs_well_formed text :
  Forall well_formed (split_into_paragraphs text).
Proof.
  rewrite split_into_paragraphs_kept.
  apply kept_paragraphs, re_split_no_blank_line.
Qed.

Lemma split_into_paragraphs_unique text paragraphs :
  laid_out 0 text paragraphs -> Forall well_formed paragraphs ->
  split_into_paragraphs text = paragraphs.
Proof.
  intros L W. symmetry.
  apply (laid_out_unique paragraphs text 0%nat 0%nat).
  - exact L.
  - apply split_into_paragraphs_laid_out.
  - exact W.
  - apply split_into_paragraphs_well_formed.
Qed.

(** X7.  A text of whitespace only, the empty text among them, has no
    paragraph, and only such a text has none. *)
Theorem no_paragraph_iff_whitespace (text : str) :
  split_into_paragraphs text = [] <-> is_gap text = true.
Proof.
  split.
  - intros E. pose proof (split_into_paragraphs_laid_out text) as L.
    rewrite E in L. exact L.
  - intros G. apply split_into_paragraphs_unique; [exact G|constructor].
Qed.

Lemma no_paragraph_iff_whitespace_witness :
  split_into_paragraphs [nl; 32%N; nl; 9%N] = [].
Proof.
  apply (proj2 (no_paragraph_iff_whitespace [nl; 32%N; nl; 9%N])).
  reflexivity.
Defined.

(** X8.  A text with no blank line inside that is not all whitespace is one
    paragraph, the text trimmed. *)
Theorem no_blank_line_one_paragraph (text : str) :
  is_gap text = false -> ~ blank_line_inside text ->
  split_into_paragraphs text = [strip text].
Proof.
  intros G B. apply split_into_paragraphs_unique.
  - destruct (strip_split text) as (lw & rw & E & Glw & Grw).
    cbn [laid_out]. exists lw, rw. repeat split; try assumption. lia.
  - constructor; [|constructor]. repeat split.
    + intros E. apply strip_gap in E. congruence.
    + apply strip_strip.
    + intros H. now apply B, blank_line_inside_strip.
Qed.

Lemma no_blank_line_one_paragraph_witness :
  split_into_paragraphs (of_string " one line ") = [strip (of_string " one line ")].
Proof.
  apply no_blank_line_one_paragraph; [reflexivity|].
  intros (a & w & b & E & _).
  assert (H : In nl (of_string " one line ")).
  { rewrite E. apply in_or_app. right. now left. }
  vm_compute in H. intuition discriminate.
Defined.

(** *** Only whitespace is dropped *)

Lemma filter_gap g : is_gap g = true -> filter (fun c => negb (isspace c)) g = [].
Proof.
  induction g as [|c g IH]; [reflexivity|].
  simpl. intros G. apply andb_true_iff in G as [-> G]. simpl. now apply IH.
Qed.

Lemma laid_out_visible paragraphs :
  forall need text,
    laid_out need text paragraphs ->
    filter (fun c => negb (isspace c)) text
    = filter (fun c => negb (isspace c)) (List.concat paragraphs).
Proof.
  induction paragraphs as [|p rest IH]; intros need text L; cbn [laid_out] in L.
  - now rewrite filter_gap.
  - destruct L as (g & tail & -> & G & _ & L).
    simpl. rewrite !filter_app, (filter_gap g G), (IH _ _ L). reflexivity.
Qed.

(** X9.  The characters of the text that are not whitespace are those of the
    paragraphs, in the same order: segmenting drops whitespace only. *)
Theorem segmenting_drops_whitespace_only (text : str) :
  filter (fun c => negb (isspace c)) text
  = filter (fun c => negb (isspace c))
           (List.concat (split_into_paragraphs text)).
Proof.
  apply (laid_out_visible _ 0%nat), split_into_paragraphs_laid_out.
Qed.

(** *** Words *)

Lemma split_gap g : is_gap g = true -> split g = [].
Proof.
  induction g as [|c g IH]; [reflexivity|].
  simpl. intros G. apply andb_true_iff in G as [-> G]. now apply IH.
Qed.

Lemma split_gap_app g x : is_gap g = true -> split (g ++ x) = split x.
Proof.
  induction g as [|c g IH]; [reflexivity|].
  simpl. intros G. apply andb_true_iff in G as [-> G]. now apply IH.
Qed.

Lemma split_step c d r :
  split (c :: d :: r)
  = if isspace c then split (d :: r)
    else if isspace d then [c] :: split (d :: r)
         else cons_head c (split (d :: r)).
Proof. reflexivity. Qed.

Lemma split_head_word c r : isspace c = false -> split (c :: r) <> [].
Proof.
  intros Hc. destruct r as [|d r].
  - simpl. rewrite Hc. discriminate.
  - rewrite split_step, Hc. destruct (isspace d); [discriminate|].
    destruct (split (d :: r)); discriminate.
Qed.

Lemma split_app_space p c x :
  isspace c = true -> split (p ++ c :: x) = split p ++ split x.
Proof.
  intros Hc. induction p as [|a p IH].
  - simpl. now rewrite Hc.
  - destruct p as [|d p].
    + simpl app. rewrite split_step, Hc. simpl.
      destruct (isspace a); [now rewrite Hc|].
      simpl. now rewrite Hc.
    + change ((a :: d :: p) ++ c :: x) with (a :: d :: (p ++ c :: x)).
      rewrite !split_step.
      change (d :: p ++ c :: x) with ((d :: p) ++ c :: x). rewrite IH.
      destruct (isspace a); [reflexivity|].
      destruct (isspace d) eqn:Hd; [reflexivity|].
      pose proof (split_head_word d p Hd).
      destruct (split (d :: p)); [congruence|reflexivity].
Qed.

Lemma laid_out_tail_start need tail rest :
  laid_out need tail rest -> (1 <= need)%nat \/ rest = [] ->
  tail = [] \/ exists c x, tail = c :: x /\ isspace c = true.
Proof.
  destruct rest as [|p rest]; cbn [laid_out].
  - intros G _. destruct tail as [|c x]; [now left|right].
    exists c, x. simpl in G. apply andb_true_iff in G as [Hc _]. now split.
  - intros (g & t & -> & G & N & _) [Hneed|]; [|discriminate].
    destruct g as [|c g]; [unfold newlines in N; simpl in N; lia|].
    right. exists c, (g ++ p ++ t). simpl in G.
    apply andb_true_iff in G as [Hc _]. now split.
Qed.

Lemma laid_out_words paragraphs :
  forall need text,
    laid_out need text paragraphs ->
    split text = List.concat (map split paragraphs).
Proof.
  induction paragraphs as [|p rest IH]; intros need text L; cbn [laid_out] in L.
  - now apply split_gap.
  - destruct L as (g & tail & -> & G & _ & L).
    rewrite (split_gap_app g _ G). simpl.
    rewrite <- (IH _ _ L).
    destruct (laid_out_tail_start 2 tail rest L) as [->|(c & x & -> & Hc)];
      [left; lia| |].
    + simpl. now rewrite !app_nil_r.
    + rewrite (split_app_space p c x Hc).
      f_equal. simpl. now rewrite Hc.
Qed.

(** X10.  The words of the text are the words of its paragraphs, one paragraph
    after the other: no word is lost, cut or joined to another. *)
Theorem words_of_text_are_words_of_paragraphs (text : str) :
  split text = List.concat (map split (split_into_paragraphs text)).
Proof.
  apply (laid_out_words _ 0%nat), split_into_paragraphs_laid_out.
Qed.

Lemma group_words_concat ps :
  group_words ps = len (List.concat (map split ps)).
Proof.
  induction ps as [|p ps IH]; [reflexivity|].
  simpl. unfold len in *. rewrite length_app, IH.
  unfold paragraph_words, len. lia.
Qed.

(** X11.  From the text to the chunks: the word counts of the chunks add up to
    the number of words of the text. *)
Theorem chunks_count_every_word (text : str) (target : Z) :
  total (map word_count
             (chunk_paragraphs (split_into_paragraphs text) target))
  = len (split text).
Proof.
  rewrite chunk_paragraphs_groups, chunks_from_word_counts.
  unfold chunk_groups.
  assert (E : forall gs, total (map group_words gs)
                         = group_words (List.concat gs)).
  { induction gs as [|g gs IH]; simpl; [reflexivity|].
    rewrite group_words_app, <- IH. reflexivity. }
  rewrite E, groups_from_concat. simpl.
  rewrite group_words_concat.
  now rewrite <- (laid_out_words _ 0%nat text
                    (split_into_paragraphs_laid_out text)).
Qed.

(** *** Segmenting what was joined *)

Lemma laid_out_join g :
  g <> [] ->
  forall need gap,
    is_gap gap = true -> (need <= newlines gap)%nat ->
    laid_out need (gap ++ join blank_sep g) g.
Proof.
  induction g as [|p g IH]; intros Hne need gap G N; [congruence|].
  destruct g as [|p2 g].
  - cbn [join laid_out]. exists gap, []. rewrite app_nil_r. now repeat split.
  - change (join blank_sep (p :: p2 :: g))
      with (p ++ blank_sep ++ join blank_sep (p2 :: g)).
    cbn [laid_out]. exists gap, (blank_sep ++ join blank_sep (p2 :: g)).
    repeat split; try assumption.
    apply IH; [discriminate|reflexivity|].
    unfold newlines. simpl. lia.
Qed.

Lemma resegment_join g :
  Forall well_formed g -> split_into_paragraphs (join blank_sep g) = g.
Proof.
  intros W. destruct g as [|p g]; [reflexivity|].
  apply split_into_paragraphs_unique; [|exact W].
  apply (laid_out_join (p :: g)) with (gap := []);
    [discriminate|reflexivity|lia].
Qed.

(** X12.  Segmenting is idempotent through the join: the paragraphs of a text,
    joined by blank lines and segmented again, are the same paragraphs. *)
Theorem segmenting_joined_paragraphs (text : str) :
  split_into_paragraphs (join blank_sep (split_into_paragraphs text))
  = split_into_paragraphs text.
Proof.
  apply resegment_join, split_into_paragraphs_well_formed.
Qed.

(** X13.  Segmenting the content of a chunk gives back the paragraphs the
    chunk was made of, for every chunk made from a segmented text. *)
Theorem segmenting_chunk_contents (text : str) (target : Z) :
  let paragraphs := split_into_paragraphs text in
  map (fun c => split_into_paragraphs (content c))
      (chunk_paragraphs paragraphs target)
  = chunk_groups paragraphs target.
Proof.
  intros paragraphs.
  rewrite chunk_paragraphs_groups.
  rewrite <- (map_map content split_into_paragraphs), chunks_from_contents.
  assert (W : Forall well_formed (List.concat (chunk_groups paragraphs target))).
  { unfold chunk_groups. rewrite groups_from_concat. simpl.
    apply split_into_paragraphs_well_formed. }
  induction (chunk_groups paragraphs target) as [|g gs IH]; [reflexivity|].
  simpl in W. apply Forall_app in W as [Wg Wgs].
  simpl. rewrite (resegment_join g Wg), (IH Wgs). reflexivity.
Qed.

End SegmenterMore.

(** ** More on the output sequencer *)

Module SequencerMore.

Import ChunkScript Listing Sequencer.

Section WithInt.

Variable py_int : str -> option Z.

Lemma existing_ids_In listdir n :
  In n (existing_ids py_int listdir)
  <-> exists filename, In filename listdir /\ numbered py_int filename n.
Proof.
  unfold existing_ids. rewrite listing_loop_In.
  split; [intros [[]|H]; exact H|intros H; now right].
Qed.

Lemma next_id_above listdir n :
  In n (existing_ids py_int listdir) -> n < next_id py_int listdir.
Proof.
  unfold next_id. destruct (existing_ids py_int listdir) as [|x l]; [intros []|].
  intros [<-|Hn].
  - pose proof (proj1 (py_max_upper l x)). lia.
  - pose proof (proj2 (py_max_upper l x) n Hn). lia.
Qed.

Lemma next_id_reached listdir :
  existing_ids py_int listdir <> [] ->
  In (next_id py_int listdir - 1) (existing_ids py_int listdir).
Proof.
  unfold next_id. destruct (existing_ids py_int listdir) as [|x l];
    [congruence|]. intros _.
  replace (py_max x l + 1 - 1) with (py_max x l) by lia. apply py_max_In.
Qed.

(** The next identifier depends on the identifiers found only. *)
Lemma next_id_same_ids listdir listdir' :
  (forall n, In n (existing_ids py_int listdir)
             <-> In n (existing_ids py_int listdir')) ->
  next_id py_int listdir = next_id py_int listdir'.
Proof.
  intros H.
  destruct (existing_ids py_int listdir) as [|x l] eqn:E;
    destruct (existing_ids py_int listdir') as [|x' l'] eqn:E'.
  - unfold next_id. now rewrite E, E'.
  - destruct (proj2 (H x') (or_introl eq_refl)).
  - destruct (proj1 (H x) (or_introl eq_refl)).
  - assert (N : existing_ids py_int listdir <> []) by (rewrite E; discriminate).
    assert (N' : existing_ids py_int listdir' <> [])
      by (rewrite E'; discriminate).
    pose proof (next_id_reached listdir N) as R.
    pose proof (next_id_reached listdir' N') as R'.
    rewrite E in R. rewrite E' in R'.
    apply H in R. apply H in R'.
    rewrite <- E' in R. rewrite <- E in R'.
    apply next_id_above in R, R'. lia.
Qed.

End WithInt.

(** X14.  [os.listdir] gives the names in no particular order: the next
    identifier is the same for two listings that hold the same names, whatever
    their order and however often a name is repeated. *)
Theorem next_id_ignores_order
        (py_int : str -> option Z) (listdir listdir' : list str) :
  (forall filename, In filename listdir <-> In filename listdir') ->
  next_id py_int listdir = next_id py_int listdir'.
Proof.
  intros H. apply next_id_same_ids. intros n.
  rewrite !existing_ids_In.
  split; intros (f & Hf & Hn); exists f; (split; [now apply H|exact Hn]).
Qed.

Lemma next_id_ignores_order_witness :
  next_id int_ascii (map of_string ["3.json"; "0.json"; "x.json"]%string)
  = next_id int_ascii (map of_string ["0.json"; "x.json"; "3.json"; "0.json"]%string).
Proof.
  apply next_id_ignores_order. intros f. simpl. tauto.
Defined.

(** X15.  A name that does not end in [.json], or whose stem [int] refuses,
    does not change the next identifier, wherever it is in the listing. *)
Theorem next_id_ignores_other_files
        (py_int : str -> option Z) (before after : list str) (filename : str) :
  endswith filename (of_string ".json") = false
  \/ py_int (splitext_root filename) = None ->
  next_id py_int (before ++ filename :: after)
  = next_id py_int (before ++ after).
Proof.
  intros H. apply next_id_same_ids. intros n.
  rewrite !existing_ids_In.
  split; intros (f & Hf & Hn).
  - exists f. split; [|exact Hn].
    apply in_app_or in Hf as [Hf|[<-|Hf]]; apply in_or_app; auto.
    destruct Hn as [He Hp]. destruct H as [H|H]; congruence.
  - exists f. split; [|exact Hn].
    apply in_app_or in Hf as [Hf|Hf]; apply in_or_app; [now left|].
    right. now right.
Qed.

Lemma next_id_ignores_other_files_witness :
  next_id int_ascii
    (map of_string ["0.json"]%string ++ of_string "notes.txt"
     :: map of_string ["1.json"]%string)
  = next_id int_ascii
      (map of_string ["0.json"]%string ++ map of_string ["1.json"]%string).
Proof.
  apply next_id_ignores_other_files. left. reflexivity.
Defined.

(** *** The name of the new file *)

Lemma rfind_from_none c s :
  (forall d, In d s -> d <> c) -> forall i, rfind_from i c s = -1.
Proof.
  induction s as [|a s IH]; intros H i; [reflexivity|].
  cbn [rfind_from]. rewrite IH by (intros d Hd; apply H; now right).
  simpl. destruct (N.eqb_spec a c) as [E|_]; [|reflexivity].
  now destruct (H a (or_introl eq_refl)).
Qed.

Lemma rfind_from_last c s t :
  (forall d, In d t -> d <> c) ->
  forall i, 0 <= i -> rfind_from i c (s ++ c :: t) = i + len s.
Proof.
  intros Ht. induction s as [|a s IH]; intros i Hi.
  - simpl app. cbn [rfind_from]. rewrite (rfind_from_none c t Ht).
    simpl. rewrite N.eqb_refl. unfold len. simpl. lia.
  - simpl app. cbn [rfind_from]. rewrite IH by lia.
    unfold len. simpl List.length.
    destruct (Z.leb_spec 0 (i + 1 + Z.of_nat (List.length s))); lia.
Qed.

Lemma splitext_root_json s :
  (forall d, In d s -> d <> slash) ->
  (exists d, In d s /\ d <> dot) ->
  splitext_root (s ++ of_string ".json") = s.
Proof.
  intros Hslash (d & Hd & Hdot). unfold splitext_root, rfind.
  rewrite (rfind_from_none slash (s ++ of_string ".json")).
  2:{ intros a Ha. apply in_app_or in Ha as [Ha|Ha]; [now apply Hslash|].
      vm_compute in Ha. intuition (subst; discriminate). }
  change (of_string ".json") with (dot :: of_string "json").
  rewrite (rfind_from_last dot s (of_string "json")) by
      (try lia; intros a Ha; vm_compute in Ha; intuition (subst; discriminate)).
  assert (Hslice : slice (s ++ dot :: of_string "json") (-1 + 1) (0 + len s) = s).
  { unfold slice, len. simpl skipn.
    replace (Z.to_nat (0 + Z.of_nat (List.length s) - (-1 + 1)))
      with (List.length s) by lia.
    rewrite firstn_app, firstn_all, Nat.sub_diag. simpl. apply app_nil_r. }
  assert (Hlt : (-1 <? 0 + len s) = true) by (apply Z.ltb_lt; unfold len; lia).
  rewrite Hlt, Hslice.
  assert (Hdots : forallb (fun a => (a =? dot)%N) s = false).
  { destruct (forallb (fun a => (a =? dot)%N) s) eqn:E; [|reflexivity].
    rewrite forallb_forall in E. specialize (E d Hd).
    apply N.eqb_eq in E. contradiction. }
  rewrite Hdots.
  change 0 with (-1 + 1) at 1. exact Hslice.
Qed.

Lemma startswith_app p x : startswith (p ++ x) p = true.
Proof.
  induction p as [|a p IH]; [now destruct x|].
  simpl. now rewrite N.eqb_refl, IH.
Qed.

Lemma endswith_app s suffix : endswith (s ++ suffix) suffix = true.
Proof. unfold endswith. rewrite rev_app_distr. apply startswith_app. Qed.

Lemma uint_chars u :
  forall d, In d (of_string (NilEmpty.string_of_uint u)) -> (48 <= d <= 57)%N.
Proof.
  induction u; simpl; intros d Hd; try contradiction;
    destruct Hd as [<-|Hd]; try (now apply IHu); cbv; split; discriminate.
Qed.

Lemma str_of_int_chars n :
  (forall d, In d (str_of_int n) -> d <> slash /\ d <> dot)
  /\ str_of_int n <> [].
Proof.
  assert (digit : forall d, (48 <= d <= 57)%N -> d <> slash /\ d <> dot).
  { intros d Hd. unfold slash, dot. split; intros ->; lia. }
  unfold str_of_int. destruct n as [|p|p]; simpl Z.to_int.
  - split; [|discriminate]. intros d Hd. apply digit. vm_compute in Hd.
    destruct Hd as [<-|[]]. lia.
  - split.
    + intros d Hd. apply digit. now apply (uint_chars (Pos.to_uint p)).
    + pose proof (DecimalPos.Unsigned.to_uint_nonnil p) as Hn.
      simpl. destruct (Pos.to_uint p); [congruence|discriminate..].
  - split; [|discriminate].
    simpl. intros d [<-|Hd].
    + unfold slash, dot. split; discriminate.
    + apply digit. now apply (uint_chars (Pos.to_uint p)).
Qed.

Lemma new_file_numbered (py_int : str -> option Z) m :
  py_int (str_of_int m) = Some m ->
  numbered py_int (str_of_int m ++ of_string ".json") m.
Proof.
  intros H. destruct (str_of_int_chars m) as [Hchars Hne]. split.
  - apply endswith_app.
  - rewrite splitext_root_json; [exact H| |].
    + intros d Hd. now apply Hchars.
    + destruct (str_of_int m) as [|d r] eqn:E; [congruence|].
      exists d. split; [now left|]. apply Hchars. now left.
Qed.

(** X16.  The file the script is about to write is not in the directory yet:
    the name made of the next identifier is none of the names listed, provided
    [int] reads that identifier back from its decimal form. *)
Theorem next_file_is_new (py_int : str -> option Z) (listdir : list str) :
  let m := next_id py_int listdir in
  py_int (str_of_int m) = Some m ->
  ~ In (str_of_int m ++ of_string ".json") listdir.
Proof.
  intros m Hint Hin.
  assert (Hm : In m (existing_ids py_int listdir)).
  { apply existing_ids_In. eexists. split; [exact Hin|].
    now apply new_file_numbered. }
  apply next_id_above in Hm. subst m. lia.
Qed.

Lemma next_file_is_new_witness :
  ~ In (str_of_int 4 ++ of_string ".json")
       (map of_string ["0.json"; "1.json"; "3.json"; "draft.json"]%string).
Proof.
  apply (next_file_is_new int_ascii
           (map of_string ["0.json"; "1.json"; "3.json"; "draft.json"]%string)).
  vm_compute. reflexivity.
Defined.

(** X17.  Run after run the identifiers go up by one: once the new file is in
    the directory, the next identifier is one more. *)
Theorem next_id_after_a_run
        (py_int : str -> option Z) (listdir listdir' : list str) :
  let m := next_id py_int listdir in
  py_int (str_of_int m) = Some m ->
  (forall filename,
     In filename listdir'
     <-> filename = str_of_int m ++ of_string ".json" \/ In filename listdir) ->
  next_id py_int listdir' = m + 1.
Proof.
  intros m Hint Hnames.
  pose proof (new_file_numbered py_int m Hint) as Hnew.
  assert (Hids : forall n, In n (existing_ids py_int listdir')
                           <-> n = m \/ In n (existing_ids py_int listdir)).
  { intros n. rewrite !existing_ids_In. split.
    - intros (f & Hf & Hn). apply Hnames in Hf as [->|Hf].
      + left. destruct Hn as [_ Hn], Hnew as [_ Hnew']. congruence.
      + right. now exists f.
    - intros [->|(f & Hf & Hn)].
      + eexists. split; [apply Hnames; now left|exact Hnew].
      + exists f. split; [apply Hnames; now right|exact Hn]. }
  assert (Hm : In m (existing_ids py_int listdir')) by (apply Hids; now left).
  assert (Hne : existing_ids py_int listdir' <> []).
  { intros E. now rewrite E in Hm. }
  pose proof (next_id_above py_int listdir' m Hm) as Hlow.
  pose proof (next_id_reached py_int listdir' Hne) as Htop.
  apply Hids in Htop as [Htop|Htop]; [lia|].
  apply next_id_above in Htop. fold m in Htop. lia.
Qed.

Lemma next_id_after_a_run_witness :
  next_id int_ascii (map of_string ["1.json"; "0.json"; "2.json"]%string)
  = next_id int_ascii (map of_string ["0.json"; "1.json"]%string) + 1.
Proof.
  apply (next_id_after_a_run int_ascii
           (map of_string ["0.json"; "1.json"]%string)).
  - vm_compute. reflexivity.
  - intros f. vm_compute. intuition (subst; auto).
Defined.

End SequencerMore.

(** ** More on the target size *)

Module TargetSizeMore.

Import ChunkScript.

(** X18.  The target stays between 150 and 250 words, is 250 exactly from 21
    to 35, does not go down with age up to 35 and does not go up with age from
    21 on. *)
Theorem target_size_shape :
  (forall age, 150 <= get_target_chunk_size age <= 250)
  /\ (forall age, get_target_chunk_size age = 250 <-> 21 <= age <= 35)
  /\ (forall age age',
        age <= age' -> age' <= 35 ->
        get_target_chunk_size age <= get_target_chunk_size age')
  /\ (forall age age',
        21 <= age -> age <= age' ->
        get_target_chunk_size age' <= get_target_chunk_size age).
Proof.
  unfold get_target_chunk_size.
  repeat split; intros;
    repeat match goal with
           | |- context [?a <=? ?b] => destruct (Z.leb_spec a b)
           | H : context [?a <=? ?b] |- _ => destruct (Z.leb_spec a b)
           end; lia.
Qed.

End TargetSizeMore.

(** ** Paths and their directories *)

Module PathFacts.

Import ChunkScript ChunkScriptIO Outside.

Lemma rfind_from_range c s :
  forall i, 0 <= i -> rfind_from i c s = -1 \/ i <= rfind_from i c s.
Proof.
  induction s as [|d r IH]; intros i Hi; [now left|].
  cbn [rfind_from].
  destruct (IH (i + 1) ltac:(lia)) as [E|E].
  - rewrite E. change (0 <=? -1) with false. cbv iota.
    destruct (d =? c)%N; [right; lia|now left].
  - destruct (Z.leb_spec 0 (rfind_from (i + 1) c r)); [right|]; lia.
Qed.

Lemma rfind_from_found c s :
  In c s -> forall i, 0 <= i -> i <= rfind_from i c s.
Proof.
  induction s as [|d r IH]; intros Hin i Hi; [contradiction|].
  cbn [rfind_from].
  destruct (rfind_from_range c r (i + 1) ltac:(lia)) as [E|E].
  - destruct Hin as [->|Hin].
    + rewrite E. change (0 <=? -1) with false. cbv iota.
      rewrite N.eqb_refl. lia.
    + specialize (IH Hin (i + 1) ltac:(lia)). lia.
  - destruct (Z.leb_spec 0 (rfind_from (i + 1) c r)); lia.
Qed.

Lemma lstrip_slash_nil s :
  lstrip_slash s = [] -> forallb (fun c => (c =? slash)%N) s = true.
Proof.
  induction s as [|c r IH]; [reflexivity|].
  cbn [lstrip_slash forallb].
  destruct (c =? slash)%N; [exact IH|discriminate].
Qed.

Lemma rstrip_slash_nil s :
  rstrip_slash s = [] -> forallb (fun c => (c =? slash)%N) s = true.
Proof.
  unfold rstrip_slash. intros E.
  apply (f_equal (@rev char)) in E. rewrite rev_involutive in E.
  apply lstrip_slash_nil in E. rewrite forallb_forall in *.
  intros c Hc. apply E. now apply in_rev in Hc.
Qed.

(** A path with a slash in it has a directory part. *)
Lemma dirname_nonempty p : In slash p -> dirname p <> [].
Proof.
  intros Hin. unfold dirname.
  pose proof (rfind_from_found slash p Hin 0 ltac:(lia)) as Hi.
  fold (rfind slash p) in Hi.
  destruct p as [|c r]; [contradiction|].
  unfold slice. change (Z.to_nat 0) with 0%nat. cbn [skipn].
  destruct (Z.to_nat (rfind slash (c :: r) + 1 - 0)) as [|k] eqn:Ek; [lia|].
  cbn [firstn str_truthy andb].
  destruct (forallb (fun c0 => (c0 =? slash)%N) (c :: firstn k r)) eqn:Hall;
    cbn [negb].
  - discriminate.
  - intros E. apply rstrip_slash_nil in E. congruence.
Qed.

Lemma startswith_slash b : startswith b [slash] = true -> In slash b.
Proof.
  destruct b as [|c b]; [discriminate|]. cbn [startswith].
  destruct (N.eqb_spec slash c) as [<-|]; [now left|discriminate].
Qed.

Lemma endswith_slash a : endswith a [slash] = true -> In slash a.
Proof.
  unfold endswith. intros H. apply startswith_slash in H.
  now apply in_rev.
Qed.

(** A path joined to a directory that is not the empty string has a slash
    in it. *)
Lemma path_join_slash a b : a <> [] -> In slash (path_join a b).
Proof.
  intros Ha. unfold path_join.
  destruct (startswith b [slash]) eqn:Hb; [now apply startswith_slash|].
  destruct a as [|c a]; [congruence|]. cbn [str_truthy negb orb].
  destruct (endswith (c :: a) [slash]) eqn:He.
  - apply in_or_app. left. now apply endswith_slash.
  - apply in_or_app. right. now left.
Qed.

Lemma path_join_nonempty a b : a <> [] \/ b <> [] -> path_join a b <> [].
Proof.
  intros H. unfold path_join.
  destruct (startswith b [slash]) eqn:Hb.
  - destruct b; [discriminate|discriminate].
  - destruct (negb (str_truthy a) || endswith a [slash]);
      intros E; apply app_eq_nil in E; destruct E as [Ea Eb];
      destruct H as [H|H]; try congruence;
      try (apply app_eq_nil in Eb; destruct Eb; congruence);
      discriminate.
Qed.

(** The path of the next output file of a book has a directory part. *)
Lemma next_output_path_dir py_int listdir script_dir book_name :
  dirname (get_next_output_path py_int listdir
             (path_join script_dir (of_string "chunked_results")) book_name)
  <> [].
Proof.
  apply dirname_nonempty. unfold get_next_output_path.
  apply path_join_slash. apply path_join_nonempty. left.
  apply path_join_nonempty. right. discriminate.
Qed.

(** So has the path of the output file of the analysis. *)
Lemma output_file_path_dir script_dir book_name file_number :
  dirname (AnalysisMain.output_file_path script_dir book_name file_number)
  <> [].
Proof.
  apply dirname_nonempty.
  unfold AnalysisMain.output_file_path, AnalysisMain.path_join_all.
  cbn [fold_left].
  apply path_join_slash. apply path_join_nonempty. left.
  apply path_join_nonempty. right. discriminate.
Qed.

Lemma os_makedirs_dir dir_ok path :
  path <> [] -> os_makedirs dir_ok path = dir_ok.
Proof. destruct path; [congruence|reflexivity]. Qed.

End PathFacts.

(** ** From one stage to the next *)

Module StagesFacts.

Import ChunkAnalysis Stages ChunkScriptIO Outside.

Section Reading.

Context {V : FieldValidators}.

Hypothesis exact : takes_exact_values V.

Lemma construct_model_dump c :
  construct (model_dump c) = Return (record_of c).
Proof.
  destruct exact as [Hint Hstr].
  unfold construct, model_dump, ParagraphChunk_init, field.
  change (dict_get _ (of_string "id")) with (Some (JInt (ChunkScript.id c))).
  change (dict_get _ (of_string "content"))
    with (Some (JStr (ChunkScript.content c))).
  cbv beta iota. rewrite Hint, Hstr. reflexivity.
Qed.

Lemma comprehension_model_dump chunks :
  comprehension (map model_dump chunks) = Return (map record_of chunks).
Proof.
  induction chunks as [|c chunks IH]; [reflexivity|].
  cbn [map comprehension]. rewrite construct_model_dump, IH. reflexivity.
Qed.

Lemma load_model_dump chunks :
  load_chunks_from_file (Decodes (JList (map model_dump chunks)))
  = ([], Return (map record_of chunks)).
Proof.
  unfold load_chunks_from_file. simpl py_iter. cbn [bind].
  now rewrite comprehension_model_dump.
Qed.

End Reading.

(** X19.  What the chunking stage saves, the analysis stage loads in full.
    For an output path with a directory part, a directory that can be made
    and a write that goes through, [save_chunks_to_json] writes one file,
    and [load_chunks_from_file] on what it holds gives a record for every
    chunk, with the same id and content, in the same order, [word_count]
    being dropped, and prints nothing.  For a path without a directory
    part, a bare file name, [os.makedirs] raises on the empty string:
    nothing is written and nothing printed. *)
Theorem saved_chunks_load_back
        (V : FieldValidators) (chunks : list ChunkScript.ParagraphChunk)
        (output_path : str) :
  takes_exact_values V ->
  (dirname output_path <> [] ->
   exists data,
     save_chunks_to_json true true chunks output_path
     = ([Makedirs (dirname output_path); WriteJson output_path data],
        [MsgSavedChunks (len chunks)], None)
     /\ load_chunks_from_file (Decodes data)
        = ([], Return (map record_of chunks)))
  /\ (dirname output_path = [] ->
      forall dir_ok write_ok,
        save_chunks_to_json dir_ok write_ok chunks output_path
        = ([], [], Some OSError)).
Proof.
  intros exact. split.
  - intros Hdir. eexists. split; [|now apply load_model_dump].
    unfold save_chunks_to_json.
    now rewrite (PathFacts.os_makedirs_dir true _ Hdir).
  - intros Hdir dir_ok write_ok. unfold save_chunks_to_json.
    rewrite Hdir. reflexivity.
Qed.

Lemma saved_chunks_load_back_witness :
  (exists data,
     save_chunks_to_json true true
       [ChunkScript.mkChunk 0 (of_string "a b") 2] (of_string "out/0.json")
     = ([Makedirs (dirname (of_string "out/0.json"));
         WriteJson (of_string "out/0.json") data],
        [MsgSavedChunks (len [ChunkScript.mkChunk 0 (of_string "a b") 2])],
        None)
     /\ @load_chunks_from_file exact_validators (Decodes data)
        = ([], Return (map record_of
                         [ChunkScript.mkChunk 0 (of_string "a b") 2])))
  /\ (forall dir_ok write_ok,
        save_chunks_to_json dir_ok write_ok
          [ChunkScript.mkChunk 0 (of_string "a b") 2] (of_string "0.json")
        = ([], [], Some OSError)).
Proof.
  split.
  - apply (proj1 (saved_chunks_load_back
                    exact_validators
                    [ChunkScript.mkChunk 0 (of_string "a b") 2]
                    (of_string "out/0.json")
                    (conj (fun n => eq_refl) (fun s => eq_refl)))).
    discriminate.
  - apply (proj2 (saved_chunks_load_back
                    exact_validators
                    [ChunkScript.mkChunk 0 (of_string "a b") 2]
                    (of_string "0.json")
                    (conj (fun n => eq_refl) (fun s => eq_refl)))).
    reflexivity.
Defined.

End StagesFacts.

(** ** The chunking script as a whole *)

Module ChunkingRun.

Import ChunkScript ChunkScriptIO Outside.
Import Segmentation SegmenterFacts SegmenterMore.
Import Assembly AssemblyFacts.
Import Stages(book_output_dir, bad_command_line).

(** X20.  A book that is absent, cannot be read or is empty: the output
    directory of the book is made all the same, and nothing is written. *)
Theorem book_without_text_writes_nothing
        (py_int : str -> option Z) (script_dir : str) (listdir : list str)
        (book : book_file) (save_dir_ok write_ok : bool)
        (book_filename : str) (target : Z) :
  snd (read_book_text book) = [] ->
  fst (fst (process_book py_int script_dir (Listing listdir) book
                         save_dir_ok write_ok book_filename target))
  = [Makedirs (book_output_dir script_dir book_filename)].
Proof.
  unfold process_book. destruct (read_book_text book) as [out text].
  simpl. intros ->. reflexivity.
Qed.

Lemma book_without_text_writes_nothing_witness :
  fst (fst (process_book int_ascii (of_string "/app") (Listing []) BookAbsent
                         true true (of_string "tale.txt") 250))
  = [Makedirs (book_output_dir (of_string "/app") (of_string "tale.txt"))].
Proof.
  apply book_without_text_writes_nothing. reflexivity.
Defined.

(** X21.  A book of whitespace only, one character at least: a file is written
    under the next identifier, and it holds the empty array. *)
Theorem whitespace_book_writes_empty_array
        (py_int : str -> option Z) (script_dir : str) (listdir : list str)
        (text : str) (book_filename : str) (target : Z) :
  text <> [] -> is_gap text = true ->
  let path :=
    get_next_output_path py_int listdir
      (path_join script_dir (of_string "chunked_results"))
      (splitext_root book_filename) in
  fst (fst (process_book py_int script_dir (Listing listdir) (BookText text)
                         true true book_filename target))
  = [Makedirs (book_output_dir script_dir book_filename);
     Makedirs (dirname path);
     WriteJson path (ChunkAnalysis.JList [])].
Proof.
  intros Hne G path. unfold process_book. cbn [read_book_text].
  destruct text as [|c text]; [congruence|]. cbn [str_truthy negb].
  rewrite (split_into_paragraphs_unique (c :: text) [] G (Forall_nil _)).
  unfold save_chunks_to_json.
  rewrite (PathFacts.os_makedirs_dir true _
             (PathFacts.next_output_path_dir py_int listdir script_dir
                (splitext_root book_filename))).
  reflexivity.
Qed.

Lemma whitespace_book_writes_empty_array_witness :
  fst (fst (process_book int_ascii (of_string "/app")
                         (Listing [of_string "0.json"]) (BookText [nl; nl])
                         true true (of_string "tale.txt") 250))
  = [Makedirs (book_output_dir (of_string "/app") (of_string "tale.txt"));
     Makedirs (dirname (of_string "/app/chunked_results/tale/1.json"));
     WriteJson (of_string "/app/chunked_results/tale/1.json")
               (ChunkAnalysis.JList [])].
Proof.
  apply (whitespace_book_writes_empty_array int_ascii (of_string "/app")
           [of_string "0.json"] [nl; nl] (of_string "tale.txt") 250).
  - discriminate.
  - reflexivity.
Defined.

(** X22.  A book with a character that is not whitespace: one file is written,
    and the analysis stage, given it, loads one record per chunk, at least
    one, with the ids 0, 1, ... in order and the contents of the chunks. *)
Theorem book_chunks_reach_analysis
        (V : ChunkAnalysis.FieldValidators)
        (py_int : str -> option Z) (script_dir : str) (listdir : list str)
        (text : str) (book_filename : str) (target : Z) :
  Stages.takes_exact_values V ->
  is_gap text = false ->
  let chunks := chunk_paragraphs (split_into_paragraphs text) target in
  exists path data records,
    fst (fst (process_book py_int script_dir (Listing listdir)
                           (BookText text) true true book_filename target))
    = [Makedirs (book_output_dir script_dir book_filename);
       Makedirs (dirname path); WriteJson path data]
    /\ ChunkAnalysis.load_chunks_from_file (ChunkAnalysis.Decodes data)
       = ([], ChunkAnalysis.Return records)
    /\ records <> []
    /\ map ChunkAnalysis.id records
       = map Z.of_nat (seq 0 (List.length chunks))
    /\ map ChunkAnalysis.content records = map content chunks.
Proof.
  intros exact G chunks.
  assert (Htext : str_truthy text = true).
  { destruct text; [discriminate|reflexivity]. }
  assert (Hps : split_into_paragraphs text <> []).
  { intros E. pose proof (split_into_paragraphs_laid_out text) as L.
    rewrite E in L. cbn [laid_out] in L. congruence. }
  assert (Hchunks : chunks <> []).
  { subst chunks. rewrite chunk_paragraphs_groups. unfold chunk_groups.
    pose proof (groups_from_not_nil target (split_into_paragraphs text) []
                  (or_intror Hps)) as Hg.
    destruct (groups_from target [] (split_into_paragraphs text));
      [congruence|discriminate]. }
  eexists _, _, (map Stages.record_of chunks).
  split; [|split; [|split; [|split]]].
  - unfold process_book. cbn [read_book_text]. rewrite Htext.
    unfold save_chunks_to_json.
    rewrite (PathFacts.os_makedirs_dir true _
               (PathFacts.next_output_path_dir py_int listdir script_dir
                  (splitext_root book_filename))).
    reflexivity.
  - now apply StagesFacts.load_model_dump.
  - destruct chunks; [congruence|discriminate].
  - rewrite map_map. cbn [Stages.record_of ChunkAnalysis.id].
    subst chunks. rewrite chunk_paragraphs_groups, chunks_from_ids.
    rewrite chunks_from_length. apply map_ext. intros k. lia.
  - rewrite map_map. reflexivity.
Qed.

Lemma book_chunks_reach_analysis_witness :
  exists path data records,
    fst (fst (process_book int_ascii (of_string "/app") (Listing [])
                           (BookText (of_string "a b")) true true
                           (of_string "tale.txt") 250))
    = [Makedirs (book_output_dir (of_string "/app") (of_string "tale.txt"));
       Makedirs (dirname path); WriteJson path data]
    /\ @ChunkAnalysis.load_chunks_from_file ChunkAnalysis.exact_validators
         (ChunkAnalysis.Decodes data)
       = ([], ChunkAnalysis.Return records)
    /\ records <> []
    /\ map ChunkAnalysis.id records
       = map Z.of_nat
           (seq 0 (List.length
                     (chunk_paragraphs
                        (split_into_paragraphs (of_string "a b")) 250)))
    /\ map ChunkAnalysis.content records
       = map content
           (chunk_paragraphs (split_into_paragraphs (of_string "a b")) 250).
Proof.
  apply (book_chunks_reach_analysis ChunkAnalysis.exact_validators int_ascii).
  - split; reflexivity.
  - reflexivity.
Defined.

Lemma process_book_ending
      (py_int : str -> option Z) (script_dir : str) (dir : dir_state)
      (book : book_file) (save_dir_ok write_ok : bool) (file : str)
      (target : Z) :
  snd (process_book py_int script_dir dir book save_dir_ok write_ok file
                    target)
  = match dir with
    | Listing _ =>
        match snd (read_book_text book) with
        | [] => Ends
        | _ :: _ => if save_dir_ok then Ends else Dies OSError
        end
    | _ => Dies OSError
    end.
Proof.
  unfold process_book. destruct dir as [| |listdir]; try reflexivity.
  destruct (read_book_text book) as [out [|c text]]; [reflexivity|].
  cbn [str_truthy negb snd]. unfold save_chunks_to_json.
  rewrite (PathFacts.os_makedirs_dir save_dir_ok _
             (PathFacts.next_output_path_dir py_int listdir script_dir
                (splitext_root file))).
  destruct save_dir_ok; [destruct write_ok|]; reflexivity.
Qed.

Lemma process_book_dies_unwritten
      (py_int : str -> option Z) (script_dir : str) (dir : dir_state)
      (book : book_file) (save_dir_ok write_ok : bool) (file : str)
      (target : Z) :
  snd (process_book py_int script_dir dir book save_dir_ok write_ok file
                    target) <> Ends ->
  forall path data,
    ~ In (WriteJson path data)
         (fst (fst (process_book py_int script_dir dir book save_dir_ok
                                 write_ok file target))).
Proof.
  unfold process_book. destruct dir as [| |listdir].
  - intros _ path data [].
  - intros _ path data [H|[]]. discriminate.
  - destruct (read_book_text book) as [out [|c text]].
    + cbn. congruence.
    + cbn [str_truthy negb snd]. unfold save_chunks_to_json.
      rewrite (PathFacts.os_makedirs_dir save_dir_ok _
                 (PathFacts.next_output_path_dir py_int listdir script_dir
                    (splitext_root file))).
      destruct save_dir_ok; [destruct write_ok; cbn; congruence|].
      intros _ path data [H|[]]. discriminate.
Qed.

(** X23.  The chunking script calls [sys.exit(1)] exactly when the command
    line has not two arguments or the age is not an integer, and then it
    has touched nothing.  On another command line it ends normally exactly
    when the output directory of the book is made and listed and either the
    book gives no text or the directory of the output file is made; whether
    the write goes through does not matter.  Every other run is left by the
    [OSError] of [os.makedirs] or [os.listdir], which nothing catches, with
    no file written.  The exit status is 0 for the runs that end normally
    and for no other. *)
Theorem chunking_exit_status
        (py_int : str -> option Z) (script_dir : str) (argv : list str)
        (dir : dir_state) (book : book_file) (save_dir_ok write_ok : bool) :
  let run :=
    script_main py_int script_dir argv dir book save_dir_ok write_ok in
  (snd run = Exits 1 <-> bad_command_line py_int argv)
  /\ (snd run = Exits 1 -> fst (fst run) = [])
  /\ (snd run = Ends
      <-> ~ bad_command_line py_int argv
          /\ (exists listdir, dir = Listing listdir)
          /\ (snd (read_book_text book) = [] \/ save_dir_ok = true))
  /\ (snd run <> Exits 1 -> snd run <> Ends ->
      snd run = Dies OSError
      /\ forall path data, ~ In (WriteJson path data) (fst (fst run)))
  /\ (exit_status (snd run) = 0 <-> snd run = Ends).
Proof.
  intros run. subst run. unfold script_main, bad_command_line.
  destruct argv as [|a [|file [|age [|x rest]]]]; cbn [snd fst];
    try (split; [split; [intros _; left; simpl; lia|reflexivity]|];
         split; [reflexivity|];
         split; [split; [discriminate|intros [H _]; destruct H; left;
                                       simpl; lia]|];
         split; [congruence|];
         split; [discriminate|discriminate]).
  destruct (py_int age) as [user_age|] eqn:Hage; cbn [snd fst].
  - assert (Hgood : ~ (List.length [a; file; age] <> 3%nat
                       \/ exists age', nth_error [a; file; age] 2 = Some age'
                                       /\ py_int age' = None)).
    { intros [H|(age' & E & H)]; [now apply H|].
      injection E as <-. congruence. }
    pose proof (process_book_ending py_int script_dir dir book save_dir_ok
                  write_ok file (get_target_chunk_size user_age)) as E.
    pose proof (process_book_dies_unwritten py_int script_dir dir book
                  save_dir_ok write_ok file (get_target_chunk_size user_age))
      as W.
    destruct (process_book py_int script_dir dir book save_dir_ok write_ok
                file (get_target_chunk_size user_age)) as [[effects out] e].
    cbn [snd fst] in *. subst e.
    split; [|split; [|split; [|split]]].
    + split; [|intros H; now destruct (Hgood H)].
      destruct dir; try discriminate.
      destruct (snd (read_book_text book)); [discriminate|].
      destruct save_dir_ok; discriminate.
    + destruct dir; try discriminate.
      destruct (snd (read_book_text book)); [discriminate|].
      destruct save_dir_ok; discriminate.
    + split.
      * intros H. split; [exact Hgood|].
        destruct dir as [| |listdir]; try discriminate.
        split; [now exists listdir|].
        destruct (snd (read_book_text book)); [now left|].
        destruct save_dir_ok; [now right|discriminate].
      * intros (_ & (listdir & ->) & [->| ->]); [reflexivity|].
        now destruct (snd (read_book_text book)).
    + intros _ Hne. split; [|exact (W Hne)].
      destruct dir; try reflexivity.
      destruct (snd (read_book_text book)); [congruence|].
      destruct save_dir_ok; [congruence|reflexivity].
    + destruct dir; try (split; discriminate).
      destruct (snd (read_book_text book)); [split; reflexivity|].
      destruct save_dir_ok; split; try reflexivity; discriminate.
  - split; [|split; [|split; [|split]]].
    + split; [|reflexivity]. intros _. right. now exists age.
    + reflexivity.
    + split; [discriminate|]. intros [H _]. destruct H. right. now exists age.
    + congruence.
    + split; discriminate.
Qed.

End ChunkingRun.

(** ** The analysis script as a whole *)

Module AnalysisRun.

Import ChunkAnalysis AnalysisMain ChunkScriptIO Outside.


(** What [main_analysis] writes and how it ends, at the output path of
    [main]. *)
Lemma main_analysis_outcome
      (script_dir book_name file_number : str) (dir_ok write_ok : bool)
      (reply : service_reply) :
  let run :=
    main_analysis dir_ok write_ok reply
      (output_file_path script_dir book_name file_number) in
  snd (fst run)
  = (if truthy (snd (analyze_paragraphs reply)) && dir_ok && write_ok
     then [(output_file_path script_dir book_name file_number,
            snd (analyze_paragraphs reply))]
     else [])
  /\ snd run
     = (if truthy (snd (analyze_paragraphs reply)) && negb dir_ok
        then Some OSError else None).
Proof.
  unfold main_analysis.
  destruct (analyze_paragraphs reply) as [out result]. cbn [snd].
  destruct (truthy result); cbn [negb andb]; [|now split].
  unfold save_analysis_result.
  rewrite (PathFacts.os_makedirs_dir dir_ok _
             (PathFacts.output_file_path_dir script_dir book_name
                file_number)).
  destruct dir_ok; [destruct write_ok|]; now split.
Qed.



(** X25.  How the analysis script ends.  Loaded without its key, it is left
    by [ValueError] before anything is printed or written.  With the key,
    [sys.exit(1)] is called for a command line that has not two arguments,
    and for a missing library once a record list that is not empty has been
    loaded, and in no other run.  On a command line with two arguments: an
    input file that cannot be opened or is not UTF-8 leaves the script by
    the exception of the read, and what [load_chunks_from_file] raises
    leaves it as it is; an absent file, a rejected batch, a reply that gives
    no analysis end the run normally; an analysis that is there ends it
    normally if the directory of the output can be made, the write failing
    or not, and leaves it by [OSError] if it cannot.  Whenever the run does
    not end normally, no file is written; and the exit status is 0 for the
    runs that end normally and for no other. *)
Theorem analysis_endings
        (V : FieldValidators) (script_dir : str) (api_key : option str)
        (argv : list str) (i : input) (s : service)
        (dir_ok write_ok : bool) :
  let run := script script_dir api_key argv i s dir_ok write_ok in
  (key_missing api_key = true -> run = ([], [], Dies ValueError))
  /\ (snd run = Exits 1
      <-> key_missing api_key = false
          /\ (List.length argv <> 3%nat
              \/ (s = NotInstalled
                  /\ exists f r rs,
                       i = Input f
                       /\ snd (load_chunks_from_file f) = Return (r :: rs))))
  /\ (key_missing api_key = false -> List.length argv = 3%nat ->
      (i = OpenRaises -> snd run = Dies OSError)
      /\ (i = NotUtf8 -> snd run = Dies UnicodeDecodeError)
      /\ (forall f,
            i = Input f ->
            (forall e, snd (load_chunks_from_file f) = Raise e ->
                       snd run = Dies (Uncaught e))
            /\ (snd (load_chunks_from_file f) = Return [] -> snd run = Ends)
            /\ (forall r rs reply,
                  snd (load_chunks_from_file f) = Return (r :: rs) ->
                  s = Replies reply ->
                  snd run
                  = if truthy (snd (analyze_paragraphs reply))
                       && negb dir_ok
                    then Dies OSError else Ends)))
  /\ (snd run <> Ends -> snd (fst run) = [])
  /\ (exit_status (snd run) = 0 <-> snd run = Ends).
Proof.
  intros run. subst run. unfold script.
  destruct (key_missing api_key).
  { cbn [snd fst]. split; [reflexivity|].
    split; [split; [discriminate|intros [H _]; discriminate]|].
    split; [discriminate|]. split; [reflexivity|]. split; discriminate. }
  split; [discriminate|]. unfold main.
  destruct argv as [|prog [|book_name [|file_number [|x rest]]]];
    cbn [snd fst List.length];
    try (split; [split; [intros _; split; [reflexivity|left; lia]
                        |reflexivity]|];
         split; [intros _ H; lia|];
         split; [reflexivity|split; discriminate]).
  destruct i as [| |f].
  - cbn [snd fst].
    split; [split; [discriminate|];
            intros [_ [H|(_ & f & r & rs & H & _)]]; [lia|discriminate]|].
    split; [|split; [reflexivity|split; discriminate]].
    intros _ _. split; [reflexivity|]. split; [discriminate|].
    intros f H. discriminate.
  - cbn [snd fst].
    split; [split; [discriminate|];
            intros [_ [H|(_ & f & r & rs & H & _)]]; [lia|discriminate]|].
    split; [|split; [reflexivity|split; discriminate]].
    intros _ _. split; [discriminate|]. split; [reflexivity|].
    intros f H. discriminate.
  - destruct (load_chunks_from_file f) as [out loaded] eqn:Hload.
    destruct loaded as [[|r rs]|e]; cbn [snd fst].
    + split; [split; [discriminate|];
              intros [_ [H|(_ & f' & r & rs & H & H')]]; [lia|];
              injection H as <-; rewrite Hload in H'; discriminate|].
      split; [|split; [congruence|split; reflexivity]].
      intros _ _. split; [discriminate|]. split; [discriminate|].
      intros f' H. injection H as <-. rewrite Hload. cbn [snd].
      split; [discriminate|]. split; [reflexivity|]. discriminate.
    + destruct s as [| |reply]; cbn [snd fst].
      * split; [split; [intros _; split; [reflexivity|]; right;
                        split; [reflexivity|];
                        exists f, r, rs; now rewrite Hload|reflexivity]|].
        split; [|split; [reflexivity|split; discriminate]].
        intros _ _. split; [discriminate|]. split; [discriminate|].
        intros f' H. injection H as <-. rewrite Hload. cbn [snd].
        split; [discriminate|]. split; [discriminate|]. discriminate.
      * split; [split; [discriminate|];
                intros [_ [H|(H & _)]]; [lia|discriminate]|].
        split; [|split; [reflexivity|split; discriminate]].
        intros _ _. split; [discriminate|]. split; [discriminate|].
        intros f' H. injection H as <-. rewrite Hload. cbn [snd].
        split; [discriminate|]. split; [discriminate|]. discriminate.
      * destruct (main_analysis_outcome script_dir book_name file_number
                    dir_ok write_ok reply) as [Hfiles Hraised].
        destruct (main_analysis dir_ok write_ok reply _)
          as [[out' files] raised].
        cbn [fst snd] in *. subst files raised.
        split; [split; [destruct (truthy _ && negb dir_ok); discriminate|];
                intros [_ [H|(H & _)]]; [lia|discriminate]|].
        split; [|split].
        -- intros _ _. split; [discriminate|]. split; [discriminate|].
           intros f' H. injection H as <-. rewrite Hload. cbn [snd].
           split; [discriminate|]. split; [discriminate|].
           intros r' rs' reply' _ E. injection E as <-.
           now destruct (truthy _ && negb dir_ok).
        -- destruct (truthy (snd (analyze_paragraphs reply)));
             cbn [andb]; [|reflexivity].
           destruct dir_ok; cbn [negb andb]; [congruence|reflexivity].
        -- destruct (truthy _ && negb dir_ok); split;
             try reflexivity; discriminate.
    + split; [split; [discriminate|];
              intros [_ [H|(_ & f' & r & rs & H & H')]]; [lia|];
              injection H as <-; rewrite Hload in H'; discriminate|].
      split; [|split; [reflexivity|split; discriminate]].
      intros _ _. split; [discriminate|]. split; [discriminate|].
      intros f' H. injection H as <-. rewrite Hload. cbn [snd].
      split; [intros e' E; injection E as <-; reflexivity|].
      split; [discriminate|]. discriminate.
Qed.

(** *** The prompt *)

Import Stages Prompt.

(** X26.  The prompt does not tell the paragraphs apart: contents are put
    between quotes as they are, so two paragraphs in a row and one paragraph
    whose content runs on with a quote, the separator and the heading of a
    second one give the same text. *)
Theorem prompt_paragraphs_can_be_forged
        (p q : ParagraphChunk) (rest : list ParagraphChunk) :
  paragraphs_to_string (p :: q :: rest)
  = paragraphs_to_string (forged p q :: rest)
  /\ List.length (forged p q :: rest) <> List.length (p :: q :: rest).
Proof.
  split; [|simpl; lia].
  unfold paragraphs_to_string.
  assert (E : paragraph_line p ++ prompt_sep ++ paragraph_line q
              = paragraph_line (forged p q)).
  { unfold paragraph_line, forged. cbn [id content].
    repeat rewrite <- app_assoc. reflexivity. }
  cbn [map]. rewrite <- E.
  destruct rest as [|r rest].
  - reflexivity.
  - change (join prompt_sep (paragraph_line p :: paragraph_line q
                             :: map paragraph_line (r :: rest)))
      with (paragraph_line p ++ prompt_sep ++ paragraph_line q ++ prompt_sep
            ++ join prompt_sep (map paragraph_line (r :: rest))).
    change (join prompt_sep
              ((paragraph_line p ++ prompt_sep ++ paragraph_line q)
               :: map paragraph_line (r :: rest)))
      with ((paragraph_line p ++ prompt_sep ++ paragraph_line q)
            ++ prompt_sep ++ join prompt_sep (map paragraph_line (r :: rest))).
    now repeat rewrite <- app_assoc.
Qed.

End AnalysisRun.

(** ** Data that is not an array *)

Module StageBoundary.

Import ChunkAnalysis.

(** X27.  Decoded data that is not an array: the empty object and the empty
    string give the empty list without a word; every other value makes the
    function raise [TypeError], which it does not catch. *)
Theorem data_not_an_array (V : FieldValidators) (data : json) :
  (forall l, data <> JList l) ->
  (load_chunks_from_file (Decodes data) = ([], Return [])
   /\ (data = JDict [] \/ data = JStr []))
  \/ (load_chunks_from_file (Decodes data) = ([], Raise TypeError)
      /\ data <> JDict [] /\ data <> JStr []).
Proof.
  intros H. destruct data as [|b|n|m e|s|l|d];
    try (right; repeat split; discriminate || reflexivity).
  - destruct s as [|c s]; [left; now split; [|right]|].
    right. repeat split; discriminate || reflexivity.
  - now destruct (H l).
  - destruct d as [|[k v] d]; [left; now split; [|left]|].
    right. repeat split; discriminate || reflexivity.
Qed.

Lemma data_not_an_array_witness :
  (@load_chunks_from_file exact_validators
     (Decodes (JDict [(of_string "id", JInt 1)])) = ([], Return [])
   /\ (JDict [(of_string "id", JInt 1)] = JDict []
       \/ JDict [(of_string "id", JInt 1)] = JStr []))
  \/ (@load_chunks_from_file exact_validators
        (Decodes (JDict [(of_string "id", JInt 1)])) = ([], Raise TypeError)
      /\ JDict [(of_string "id", JInt 1)] <> JDict []
      /\ JDict [(of_string "id", JInt 1)] <> JStr []).
Proof.
  apply data_not_an_array. discriminate.
Defined.

End StageBoundary.

(** ** The scripts on small inputs *)

Module RunExamples.

Import ChunkScript ChunkScriptIO.

Example directories :
  map dirname (map of_string ["/app/chunked_results/tale/1.json"; "x"; "/x";
                              "a//b"]%string)
  = map of_string ["/app/chunked_results/tale"; ""; "/"; "a"]%string.
Proof. reflexivity. Qed.

Example joined_paths :
  path_join (of_string "/app/") (of_string "books") = of_string "/app/books"
  /\ path_join (of_string "/app") (of_string "/books") = of_string "/books"
  /\ AnalysisMain.input_file_path (of_string "/app") (of_string "tale")
                                  (of_string "0")
     = of_string "/app/results/tale/0.json".
Proof. repeat split; reflexivity. Qed.

Example a_short_book :
  process_book int_ascii (of_string "/app") (Listing [of_string "0.json"])
               (BookText (of_string "a b")) true true (of_string "tale.txt")
               250
  = ([Makedirs (of_string "/app/chunked_results/tale");
      Makedirs (of_string "/app/chunked_results/tale");
      WriteJson (of_string "/app/chunked_results/tale/1.json")
                (ChunkAnalysis.JList
                   [model_dump (mkChunk 0 (of_string "a b") 2)])],
     [MsgStarting; MsgTargetSize 250; MsgFoundParagraphs 1;
      MsgSavedChunks 1; MsgFinished],
     Outside.Ends).
Proof. reflexivity. Qed.

Example a_failed_write :
  process_book int_ascii (of_string "/app") (Listing [])
               (BookText (of_string "a b")) true false (of_string "tale.txt")
               250
  = ([Makedirs (of_string "/app/chunked_results/tale");
      Makedirs (of_string "/app/chunked_results/tale")],
     [MsgStarting; MsgTargetSize 250; MsgFoundParagraphs 1; MsgSaveError;
      MsgFinished],
     Outside.Ends).
Proof. reflexivity. Qed.

Example a_directory_in_the_way :
  process_book int_ascii (of_string "/app") MakedirsRaises
               (BookText (of_string "a b")) true true (of_string "tale.txt")
               250
  = ([], [], Outside.Dies Outside.OSError).
Proof. reflexivity. Qed.

Example a_bare_file_name :
  save_chunks_to_json true true [mkChunk 0 (of_string "a b") 2]
                      (of_string "0.json")
  = ([], [], Some Outside.OSError).
Proof. reflexivity. Qed.

Example an_analysis_not_saved :
  @AnalysisMain.main ChunkAnalysis.exact_validators (of_string "/app")
    (map of_string ["prog"; "tale"; "0"]%string)
    (AnalysisMain.Input
       (ChunkAnalysis.Decodes
          (ChunkAnalysis.JList
             [ChunkAnalysis.JDict
                [(of_string "id", ChunkAnalysis.JInt 0);
                 (of_string "content", ChunkAnalysis.JStr (of_string "a"))]])))
    (AnalysisMain.Replies
       (ChunkAnalysis.TextDecodes
          (ChunkAnalysis.JDict
             [(of_string "analysis_results",
               ChunkAnalysis.JList [ChunkAnalysis.JInt 1])])))
    true false
  = ([AnalysisMain.Starting;
      AnalysisMain.Printed ChunkAnalysis.MsgSending;
      AnalysisMain.Printed ChunkAnalysis.MsgReceived;
      AnalysisMain.SaveFailed; AnalysisMain.Finished],
     [], Outside.Ends).
Proof. reflexivity. Qed.

Example a_prompt :
  Prompt.paragraphs_to_string
    [ChunkAnalysis.mkParagraph 0 (of_string "a");
     ChunkAnalysis.mkParagraph 12 (of_string "b")]
  = of_string "[Paragraph with id=0]: " ++ [Prompt.quote] ++ of_string "a"
    ++ [Prompt.quote; nl; 9%N] ++ of_string "[Paragraph with id=12]: "
    ++ [Prompt.quote] ++ of_string "b" ++ [Prompt.quote].
Proof. reflexivity. Qed.

End RunExamples.
